(** * Prompt-to-JSON generator: the form projector and the enhance/merge protocol

    A shallow embedding of [src/index.tsx] (the field registry [CONFIG_FIELDS],
    [buildUI], [generateAndDisplayJSON], [handleEnhanceClick]) and of the
    batch stub [generatePromptsBatch], with the properties the specification
    states about them.

    Conventions of the embedding.
    - A JavaScript string is the list of its UTF-16 code units.
    - A plain JavaScript object is the list of its own enumerable properties
      in enumeration order (creation order: none of the keys used here is an
      array index).
    - The page is one record: the cached DOM nodes of [dom] with the part of
      their state the code reads or writes, plus the one piece of the global
      object graph that the code can reach through [dom.configControls[key]]
      with a key taken from the service response: the [value] property of
      [Object.prototype].
    - The generation service and [JSON.parse] are the environment: an
      enhancement run is given the outcome of the awaited request. *)

From Stdlib Require Import List NArith ZArith String Ascii Bool Lia.
From Stdlib Require Import Floats.SpecFloat.
From Stdlib Require Import Permutation DecimalN.
Import ListNotations.

(* ================================================================== *)
(** ** JavaScript strings *)

Module JsString.

Definition jsstring := list N.

(** A literal of the source, as code units (the literals are ASCII). *)
Definition js (s : string) : jsstring :=
  map N_of_ascii (list_ascii_of_string s).

Fixpoint eqb (a b : jsstring) : bool :=
  match a, b with
  | [], [] => true
  | x :: a', y :: b' => N.eqb x y && eqb a' b'
  | _, _ => false
  end.

(** Truthiness of a string value: every string but the empty one. *)
Definition truthy (s : jsstring) : bool :=
  match s with [] => false | _ :: _ => true end.

(** ECMAScript [WhiteSpace]: TAB, VT, FF, SP, NBSP, ZWNBSP and the
    Unicode space separators. *)
Definition isWhiteSpace (c : N) : bool :=
  (N.eqb c 0x9 || N.eqb c 0xB || N.eqb c 0xC || N.eqb c 0x20 || N.eqb c 0xA0
   || N.eqb c 0x1680 || (N.leb 0x2000 c && N.leb c 0x200A)
   || N.eqb c 0x202F || N.eqb c 0x205F || N.eqb c 0x3000
   || N.eqb c 0xFEFF)%N.

(** ECMAScript [LineTerminator]: LF, CR, LS, PS. *)
Definition isLineTerminator (c : N) : bool :=
  (N.eqb c 0xA || N.eqb c 0xD || N.eqb c 0x2028 || N.eqb c 0x2029)%N.

Definition trimmable (c : N) : bool := isWhiteSpace c || isLineTerminator c.

Fixpoint trimStart (s : jsstring) : jsstring :=
  match s with
  | [] => []
  | c :: r => if trimmable c then trimStart r else s
  end.

Fixpoint trimEnd (s : jsstring) : jsstring :=
  match s with
  | [] => []
  | c :: r =>
      match trimEnd r with
      | [] => if trimmable c then [] else [c]
      | r' => c :: r'
      end
  end.

(** [String.prototype.trim] *)
Definition trim (s : jsstring) : jsstring := trimEnd (trimStart s).

(** [Array.prototype.join] on an array of strings. *)
Fixpoint join (sep : jsstring) (l : list jsstring) : jsstring :=
  match l with
  | [] => []
  | [x] => x
  | x :: r => x ++ sep ++ join sep r
  end.

Definition digit (d : N) : N := (48 + d)%N.

Fixpoint digitsOfUint (u : Decimal.uint) : jsstring :=
  match u with
  | Decimal.Nil => []
  | Decimal.D0 r => digit 0 :: digitsOfUint r
  | Decimal.D1 r => digit 1 :: digitsOfUint r
  | Decimal.D2 r => digit 2 :: digitsOfUint r
  | Decimal.D3 r => digit 3 :: digitsOfUint r
  | Decimal.D4 r => digit 4 :: digitsOfUint r
  | Decimal.D5 r => digit 5 :: digitsOfUint r
  | Decimal.D6 r => digit 6 :: digitsOfUint r
  | Decimal.D7 r => digit 7 :: digitsOfUint r
  | Decimal.D8 r => digit 8 :: digitsOfUint r
  | Decimal.D9 r => digit 9 :: digitsOfUint r
  end.

(** [Number::toString] on a non-negative integer below 10^21: its decimal
    digits. *)
Definition numberToString (n : N) : jsstring :=
  match n with
  | N0 => [digit 0]
  | _ => digitsOfUint (N.to_uint n)
  end.

Definition hexDigit (d : N) : N :=
  if (d <? 10)%N then (48 + d)%N else (97 + (d - 10))%N.

(** [UnicodeEscape]: backslash, u, four lowercase hexadecimal digits. *)
Definition unicodeEscape (c : N) : jsstring :=
  [0x5C; 0x75;
   hexDigit (N.land (N.shiftr c 12) 15); hexDigit (N.land (N.shiftr c 8) 15);
   hexDigit (N.land (N.shiftr c 4) 15); hexDigit (N.land c 15)]%N.

Definition isLeadingSurrogate (c : N) : bool :=
  (N.leb 0xD800 c && N.leb c 0xDBFF)%N.
Definition isTrailingSurrogate (c : N) : bool :=
  (N.leb 0xDC00 c && N.leb c 0xDFFF)%N.

(** The escape of one code unit that is not part of a surrogate pair. *)
Definition quoteUnit (c : N) : jsstring :=
  (if N.eqb c 0x08 then [0x5C; 0x62]
  else if N.eqb c 0x09 then [0x5C; 0x74]
  else if N.eqb c 0x0A then [0x5C; 0x6E]
  else if N.eqb c 0x0C then [0x5C; 0x66]
  else if N.eqb c 0x0D then [0x5C; 0x72]
  else if N.eqb c 0x22 then [0x5C; 0x22]
  else if N.eqb c 0x5C then [0x5C; 0x5C]
  else if N.ltb c 0x20 then unicodeEscape c
  else if isLeadingSurrogate c || isTrailingSurrogate c then unicodeEscape c
  else [c])%N.

Fixpoint quoteBody (s : jsstring) : jsstring :=
  match s with
  | [] => []
  | c :: r =>
      match r with
      | d :: r' =>
          if isLeadingSurrogate c && isTrailingSurrogate d
          then c :: d :: quoteBody r'
          else quoteUnit c ++ quoteBody r
      | [] => quoteUnit c
      end
  end.

(** [QuoteJSONString] *)
Definition quoteJSONString (s : jsstring) : jsstring :=
  [0x22%N] ++ quoteBody s ++ [0x22%N].

End JsString.
Import JsString.

(* ================================================================== *)
(** ** Plain objects *)

Module Obj.

(** [o[k]] restricted to own properties. *)
Fixpoint getOwn {A : Type} (o : list (jsstring * A)) (k : jsstring)
  : option A :=
  match o with
  | [] => None
  | (k', v) :: r => if JsString.eqb k' k then Some v else getOwn r k
  end.

(** [o[k] = v]: an existing own property keeps its place, a new one is
    added last. *)
Fixpoint set {A : Type} (o : list (jsstring * A)) (k : jsstring) (v : A)
  : list (jsstring * A) :=
  match o with
  | [] => [(k, v)]
  | (k', v') :: r =>
      if JsString.eqb k' k then (k', v) :: r else (k', v') :: set r k v
  end.

(** [Object.fromEntries] *)
Definition fromEntries {A : Type} (es : list (jsstring * A))
  : list (jsstring * A) :=
  fold_left (fun o kv => set o (fst kv) (snd kv)) es [].

(** [Object.keys] *)
Definition keys {A : Type} (o : list (jsstring * A)) : list jsstring :=
  map fst o.

End Obj.

(* ================================================================== *)
(** ** Field registry: [CONFIG_FIELDS] *)

Inductive FieldConfig : Type :=
| SelectField (label : jsstring) (options : list jsstring)
| TextField (label : jsstring) (placeholder : jsstring).

Definition label (c : FieldConfig) : jsstring :=
  match c with SelectField l _ => l | TextField l _ => l end.

Definition isSelect (c : FieldConfig) : bool :=
  match c with SelectField _ _ => true | TextField _ _ => false end.

Definition CONFIG_FIELDS : list (jsstring * FieldConfig) :=
  [ (js "cameraMovement",
     SelectField (js "Camera Movement")
       (map js ["Static"; "Pan"; "Tilt"; "Zoom"; "Dolly"; "Handheld"; "Crane";
                "Steadicam"; "Drone"]%string));
    (js "lightingMode",
     SelectField (js "Lighting Mode")
       (map js ["Natural"; "Studio"; "Backlit"; "Low-key"; "High-key";
                "Cinematic"; "Ambient"; "Hard Light"]%string));
    (js "mood",
     SelectField (js "Mood")
       (map js ["Cheerful"; "Dramatic"; "Calm"; "Mysterious"; "Romantic";
                "Tense"; "Nostalgic"; "Epic"]%string));
    (js "colorPalette",
     SelectField (js "Color Palette")
       (map js ["Warm"; "Cool"; "Monochrome"; "Pastel"; "Vibrant"; "Muted";
                "Sepia"; "Neon"]%string));
    (js "subjectFocus",
     SelectField (js "Subject Focus")
       (map js ["Face"; "Full Body"; "Object"; "Group"; "Macro"; "Wide Shot";
                "Close-up"; "Medium Shot"]%string));
    (js "environmentalDetails",
     TextField (js "Environmental Details")
       (js "e.g., foggy morning, neon-lit city"));
    (js "background",
     TextField (js "Background") (js "e.g., bustling market, serene forest")) ].

Definition registryKeys : list jsstring := Obj.keys CONFIG_FIELDS.

Definition PROMPT : jsstring := js "prompt".

(* ================================================================== *)
(** ** Values produced by [JSON.parse] *)

#[warnings="-register-all"]
Inductive JSValue : Type :=
| JNull
| JBoolean (b : bool)
| JNumber (x : spec_float)
| JString (s : jsstring)
| JArray (elements : list JSValue)
| JObject (members : list (jsstring * JSValue)).

(** [typeof value === 'string'] *)
Definition typeofIsString (value : JSValue) : bool :=
  match value with JString _ => true | _ => false end.

Definition indexed {A : Type} (l : list A) : list (jsstring * A) :=
  combine (map (fun i => numberToString (N.of_nat i)) (seq 0 (List.length l))) l.

(** [Object.entries]: [None] is the TypeError raised on [null]. A boolean or
    a number has no own enumerable property, a string and an array have their
    indices, an object has its members ([JSON.parse] creates every member,
    [__proto__] included, as an own data property). *)
Definition Object_entries (v : JSValue) : option (list (jsstring * JSValue)) :=
  match v with
  | JNull => None
  | JBoolean _ => Some []
  | JNumber _ => Some []
  | JString s => Some (indexed (map (fun c => JString [c]) s))
  | JArray l => Some (indexed l)
  | JObject ms => Some ms
  end.

(* ================================================================== *)
(** ** The form controls and the page *)

(** The two kinds of element [buildUI] stores in [dom.configControls], with
    the state behind their [value] property. *)
Inductive Control : Type :=
| SelectElement (optionValues : list jsstring) (value : jsstring)
| InputElement (value : jsstring).

(** Reading [element.value]. *)
Definition controlValue (c : Control) : jsstring :=
  match c with
  | SelectElement _ v => v
  | InputElement v => v
  end.

(** The value sanitization of [<input type="text">]: LF and CR are removed. *)
Definition stripNewlines (s : jsstring) : jsstring :=
  filter (fun c => negb (N.eqb c 0xA || N.eqb c 0xD)%N) s.

(** Writing [element.value = v]. A [<select>] selects the first option whose
    value is [v]; when there is none, no option is selected and its value
    reads as the empty string. A text input keeps the sanitized string. *)
Definition setControlValue (c : Control) (v : jsstring) : Control :=
  match c with
  | SelectElement ovs _ =>
      SelectElement ovs (if existsb (JsString.eqb v) ovs then v else [])
  | InputElement _ => InputElement (stripNewlines v)
  end.

Record Button : Type := { disabled : bool; textContent : jsstring }.

(** The state the handlers read and write.
    - [promptInput]: the value of the prompt textarea; [None] while
      [dom.promptInput] is null.
    - [enhanceButton]: the enhance button; [None] while it is null.
    - [jsonOutput]: the text of the [<code>] node inside [dom.jsonOutput];
      [None] while [dom.jsonOutput] is null.
    - [configControls]: the object [dom.configControls], key by key.
    - [objectPrototypeValue]: the property [value] of [Object.prototype];
      [None] while it is not defined, as in a fresh page. *)
Record Page : Type := {
  promptInput : option jsstring;
  enhanceButton : option Button;
  jsonOutput : option jsstring;
  configControls : list (jsstring * Control);
  objectPrototypeValue : option jsstring
}.

Definition withPromptInput (p : Page) (x : option jsstring) : Page :=
  {| promptInput := x; enhanceButton := enhanceButton p;
     jsonOutput := jsonOutput p; configControls := configControls p;
     objectPrototypeValue := objectPrototypeValue p |}.

Definition withEnhanceButton (p : Page) (x : option Button) : Page :=
  {| promptInput := promptInput p; enhanceButton := x;
     jsonOutput := jsonOutput p; configControls := configControls p;
     objectPrototypeValue := objectPrototypeValue p |}.

Definition withJsonOutput (p : Page) (x : option jsstring) : Page :=
  {| promptInput := promptInput p; enhanceButton := enhanceButton p;
     jsonOutput := x; configControls := configControls p;
     objectPrototypeValue := objectPrototypeValue p |}.

Definition withConfigControls (p : Page) (x : list (jsstring * Control))
  : Page :=
  {| promptInput := promptInput p; enhanceButton := enhanceButton p;
     jsonOutput := jsonOutput p; configControls := x;
     objectPrototypeValue := objectPrototypeValue p |}.

Definition withObjectPrototypeValue (p : Page) (x : option jsstring) : Page :=
  {| promptInput := promptInput p; enhanceButton := enhanceButton p;
     jsonOutput := jsonOutput p; configControls := configControls p;
     objectPrototypeValue := x |}.

(** FormState: the prompt and the value of every control, by key. *)
Definition formState (p : Page)
  : option jsstring * list (jsstring * jsstring) :=
  (promptInput p,
   map (fun kc => (fst kc, controlValue (snd kc))) (configControls p)).

(** The module state before [main] runs. *)
Definition startPage : Page :=
  {| promptInput := None; enhanceButton := None; jsonOutput := None;
     configControls := []; objectPrototypeValue := None |}.

Definition IDLE_LABEL : jsstring := js "Enhance with AI".

(** The control [buildUI] creates for a registry entry: a [<select>] whose
    first option is the empty default one, or an empty text input. *)
Definition createControl (config : FieldConfig) : Control :=
  match config with
  | SelectField _ options => SelectElement ([] :: options) []
  | TextField _ _ => InputElement []
  end.

(** [buildUI], as far as [dom] is concerned. *)
Definition buildUI (rootPresent : bool) (p : Page) : Page :=
  if negb rootPresent then p
  else
    {| promptInput := Some [];
       enhanceButton := Some {| disabled := false; textContent := IDLE_LABEL |};
       jsonOutput := Some [];
       configControls :=
         fold_left (fun cs kc => Obj.set cs (fst kc) (createControl (snd kc)))
                   CONFIG_FIELDS (configControls p);
       objectPrototypeValue := objectPrototypeValue p |}.

(* ================================================================== *)
(** ** Form State Projector: [generateAndDisplayJSON] *)

(** What [dom.configControls[key]] evaluates to. *)
Inductive Looked : Type :=
| LElement (c : Control)
| LString (s : jsstring)
| LObjectPrototype
| LFunction
| LUndefined.

(** The function-valued properties every object inherits from
    [Object.prototype]. *)
Definition objectPrototypeFunctions : list jsstring :=
  map js ["constructor"; "__defineGetter__"; "__defineSetter__";
          "hasOwnProperty"; "__lookupGetter__"; "__lookupSetter__";
          "isPrototypeOf"; "propertyIsEnumerable"; "toString"; "valueOf";
          "toLocaleString"]%string.

(** [dom.configControls[key]]: an own property, else what the prototype
    chain gives. *)
Definition lookupControl (p : Page) (key : jsstring) : Looked :=
  match Obj.getOwn (configControls p) key with
  | Some c => LElement c
  | None =>
      if JsString.eqb key (js "value") then
        match objectPrototypeValue p with
        | Some s => LString s
        | None => LUndefined
        end
      else if JsString.eqb key (js "__proto__") then LObjectPrototype
      else if existsb (JsString.eqb key) objectPrototypeFunctions
           then LFunction
      else LUndefined
  end.

(** The keys [for (const key in dom.configControls)] visits, each with the
    value [dom.configControls[key]]: the own properties, then the enumerable
    ones of [Object.prototype] that no own property shadows. *)
Definition forIn (p : Page) : list (jsstring * Looked) :=
  map (fun kc => (fst kc, lookupControl p (fst kc))) (configControls p)
  ++ match objectPrototypeValue p with
     | Some _ =>
         if existsb (JsString.eqb (js "value")) (Obj.keys (configControls p))
         then []
         else [(js "value", lookupControl p (js "value"))]
     | None => []
     end.

(** [x.value] for a value the loop meets: the state of an element; on a
    string primitive the property is found on [Object.prototype]. (The loop
    meets nothing else: a visited key is own or the inherited [value].) *)
Definition dotValue (p : Page) (x : Looked) : jsstring :=
  match x with
  | LElement c => controlValue c
  | _ => match objectPrototypeValue p with Some s => s | None => [] end
  end.

(** The object [output] at the point it is serialized. *)
Definition buildOutput (p : Page) : list (jsstring * jsstring) :=
  let output :=
    match promptInput p with
    | Some v =>
        let promptValue := trim v in
        if truthy promptValue then Obj.set [] PROMPT promptValue else []
    | None => []
    end in
  fold_left
    (fun out kx =>
       let value := trim (dotValue p (snd kx)) in
       if truthy value then Obj.set out (fst kx) value else out)
    (forIn p) output.

(** [JSON.stringify(output, null, 2)] on an object of strings. *)
Definition JSON_stringify (o : list (jsstring * jsstring)) : jsstring :=
  match o with
  | [] => js "{}"
  | _ =>
      js "{" ++ [0xA%N] ++ js "  "
      ++ join ([0x2C%N; 0xA%N] ++ js "  ")
           (map (fun kv =>
                   quoteJSONString (fst kv) ++ js ": "
                   ++ quoteJSONString (snd kv)) o)
      ++ [0xA%N] ++ js "}"
  end.

Definition generateAndDisplayJSON (p : Page) : Page :=
  match jsonOutput p with
  | None => p
  | Some _ => withJsonOutput p (Some (JSON_stringify (buildOutput p)))
  end.

(** [main]: build the interface, attach the listeners, show the first JSON. *)
Definition main (rootPresent : bool) : Page :=
  generateAndDisplayJSON (buildUI rootPresent startPage).

(* ================================================================== *)
(** ** Enhancement Client: [handleEnhanceClick] *)

(** The members of [Type] (of the generation SDK) the code uses. *)
Inductive GenAIType : Type := OBJECT | STRING.

Record PropertySchema : Type := {
  propertyType : GenAIType;
  description : jsstring
}.

Record Schema : Type := {
  schemaType : GenAIType;
  properties : list (jsstring * PropertySchema)
}.

(** The option list a description carries. *)
Definition optionList (options : list jsstring) : jsstring :=
  js "Choose one of: " ++ join (js ", ") options.

Definition describe (config : FieldConfig) : jsstring :=
  js "Suggest a value for " ++ label config ++ js ". "
  ++ match config with
     | SelectField _ options => optionList options
     | TextField _ _ => []
     end.

(** The [schema] constant of the handler, for a registry [fields]. *)
Definition buildSchema (fields : list (jsstring * FieldConfig)) : Schema :=
  {| schemaType := OBJECT;
     properties :=
       Obj.fromEntries
         (map (fun kc =>
                 (fst kc,
                  {| propertyType := STRING;
                     description := describe (snd kc) |}))
              fields) |}.

Inductive JSError : Type := RequestError | SyntaxError | TypeError.

(** What the handler does to the outside, in order. *)
Inductive Effect : Type :=
| Alert (message : jsstring)
| ConsoleError (message : jsstring) (error : JSError)
| GenerateContent (model contents responseMimeType : jsstring)
                  (responseSchema : Schema).

Definition isGenerateContent (e : Effect) : bool :=
  match e with GenerateContent _ _ _ _ => true | _ => false end.

(** How the awaited request ends: it throws or rejects, or it brings a
    response; then [parsed] is the result of [JSON.parse(response.text)],
    [None] when that throws (malformed text, or no text at all). *)
Inductive ServiceOutcome : Type :=
| Rejected
| Responded (parsed : option JSValue).

Definition looksTruthy (x : Looked) : bool :=
  match x with
  | LElement _ => true
  | LString s => truthy s
  | LObjectPrototype => true
  | LFunction => true
  | LUndefined => false
  end.

(** [dom.configControls[key].value = value] where [dom.configControls[key]]
    is [target]. The element is updated in place. On [Object.prototype] the
    property is created or overwritten. On an inherited function the new
    property lands on that function object, which nothing reads. On a string
    primitive the assignment fails: a TypeError in a module (strict code). *)
Definition assignValue (p : Page) (key : jsstring) (target : Looked)
  (value : jsstring) : option Page :=
  match target with
  | LElement c =>
      Some (withConfigControls p
              (Obj.set (configControls p) key (setControlValue c value)))
  | LString _ => None
  | LObjectPrototype => Some (withObjectPrototypeValue p (Some value))
  | LFunction => Some p
  | LUndefined => None
  end.

(** The merge loop over [Object.entries(enhancedData)]; the second component
    is the error that ended it early, if any. *)
Fixpoint mergeEntries (entries : list (jsstring * JSValue)) (p : Page)
  : Page * option JSError :=
  match entries with
  | [] => (p, None)
  | (key, value) :: rest =>
      let target := lookupControl p key in
      match value with
      | JString s =>
          if looksTruthy target then
            match assignValue p key target s with
            | Some p' => mergeEntries rest p'
            | None => (p, Some TypeError)
            end
          else mergeEntries rest p
      | _ => mergeEntries rest p
      end
  end.

Definition EMPTY_PROMPT_NOTICE : jsstring := js "Please enter a prompt first.".
Definition FAILURE_NOTICE : jsstring :=
  js "An error occurred while enhancing the prompt. Please check the console for details.".
Definition FAILURE_LOG : jsstring := js "Error enhancing prompt:".
Definition LOADING_LABEL : jsstring := js "Enhancing...".

Definition requestFor (prompt : jsstring) : Effect :=
  GenerateContent (js "gemini-2.5-flash")
    (js "Analyze this video prompt and extract the relevant parameters according to the schema. Prompt: "
     ++ [0x22%N] ++ prompt ++ [0x22%N])
    (js "application/json")
    (buildSchema CONFIG_FIELDS).

(** The handler up to its [await]. *)
Inductive Started : Type :=
| Returned (p : Page) (effects : list Effect)
| Awaiting (p : Page) (effects : list Effect).

Definition enhanceBegin (p : Page) : Started :=
  match promptInput p, enhanceButton p with
  | Some v, Some _ =>
      let prompt := trim v in
      if negb (truthy prompt) then Returned p [Alert EMPTY_PROMPT_NOTICE]
      else
        Awaiting
          (withEnhanceButton p
             (Some {| disabled := true; textContent := LOADING_LABEL |}))
          [requestFor prompt]
  | _, _ => Returned p []
  end.

Definition caught (e : JSError) : list Effect :=
  [ConsoleError FAILURE_LOG e; Alert FAILURE_NOTICE].

(** The [try] block after the [await], with its [catch]. *)
Definition enhanceTry (p : Page) (o : ServiceOutcome) : Page * list Effect :=
  match o with
  | Rejected => (p, caught RequestError)
  | Responded None => (p, caught SyntaxError)
  | Responded (Some enhancedData) =>
      match Object_entries enhancedData with
      | None => (p, caught TypeError)
      | Some entries =>
          match mergeEntries entries p with
          | (p', None) => (p', [])
          | (p', Some e) => (p', caught e)
          end
      end
  end.

(** The [finally] block. The button is the one checked on entry. *)
Definition enhanceFinally (p : Page) : Page :=
  let p' := generateAndDisplayJSON p in
  withEnhanceButton p'
    (match enhanceButton p' with
     | Some _ => Some {| disabled := false; textContent := IDLE_LABEL |}
     | None => None
     end).

(** The handler from the point the awaited request settles. *)
Definition enhanceResume (p : Page) (o : ServiceOutcome)
  : Page * list Effect :=
  let (p', effects) := enhanceTry p o in
  (enhanceFinally p', effects).

(** What the user can do to the form; each edit fires the [input] listener,
    which is [generateAndDisplayJSON]. *)
Inductive UserEdit : Type :=
| EditPrompt (v : jsstring)
| EditControl (key : jsstring) (v : jsstring).

Definition applyEdit (p : Page) (e : UserEdit) : Page :=
  generateAndDisplayJSON
    match e with
    | EditPrompt v =>
        match promptInput p with
        | Some _ => withPromptInput p (Some v)
        | None => p
        end
    | EditControl key v =>
        match Obj.getOwn (configControls p) key with
        | Some c =>
            withConfigControls p
              (Obj.set (configControls p) key (setControlValue c v))
        | None => p
        end
    end.

Definition applyEdits (edits : list UserEdit) (p : Page) : Page :=
  fold_left applyEdit edits p.

(** One click on the enhance button: the edits the user makes while the
    request is in flight, then the outcome of the request. *)
Definition handleEnhanceClick (p : Page) (midflight : list UserEdit)
  (o : ServiceOutcome) : Page * list Effect :=
  match enhanceBegin p with
  | Returned p' effects => (p', effects)
  | Awaiting p' effects =>
      let (p'', effects') := enhanceResume (applyEdits midflight p') o in
      (p'', effects ++ effects')
  end.

(* ================================================================== *)
(** ** [generatePromptsBatch] *)

(** [formState] has type [any], and all the function does with it is
    evaluate [formState.keyword] inside the template literal, once per
    element and in index order: read the property, convert what it holds to a
    string. [Keyword] is what the property holds. [KUndefined] is also a
    missing property. [KConverted] is every case the other constructors
    leave (a number, a bigint, an object, a property read through a getter):
    [text i] is the string the evaluation for index [i] gives, [None] when
    it throws. *)
Inductive Keyword : Type :=
| KString (s : jsstring)
| KUndefined
| KNull
| KBoolean (b : bool)
| KSymbol
| KConverted (text : N -> option jsstring).

(** [Nullish] is [null] or [undefined], on which reading a property throws;
    [Holding k] is any other value, [k] being what its [keyword] holds. *)
Inductive BatchFormState : Type :=
| Nullish
| Holding (keyword : Keyword).

(** The text [formState.keyword] contributes to the template for index
    [i]; [None] when the evaluation throws (a TypeError on a null or
    undefined [formState] and on a Symbol). *)
Definition keywordText (formState : BatchFormState) (i : N)
  : option jsstring :=
  match formState with
  | Nullish => None
  | Holding (KString s) => Some s
  | Holding KUndefined => Some (js "undefined")
  | Holding KNull => Some (js "null")
  | Holding (KBoolean true) => Some (js "true")
  | Holding (KBoolean false) => Some (js "false")
  | Holding KSymbol => None
  | Holding (KConverted text) => text i
  end.

Definition MAX_ARRAY_LENGTH : N := (2 ^ 32 - 1)%N.

(** How the promise of an [async] function that builds an array ends. *)
Inductive Settlement (A : Type) : Type :=
| Fulfilled (a : A)
| RejectedRangeError
| RejectedByCallback
| OutOfCapacity.

Arguments Fulfilled {A} a.
Arguments RejectedRangeError {A}.
Arguments RejectedByCallback {A}.
Arguments OutOfCapacity {A}.

(** The callback applied to the indices in order; nothing when a call
    throws. *)
Fixpoint mapUntilThrow {A : Type} (mapfn : N -> option A)
  (indices : list nat) : option (list A) :=
  match indices with
  | [] => Some []
  | i :: rest =>
      match mapfn (N.of_nat i) with
      | None => None
      | Some a =>
          match mapUntilThrow mapfn rest with
          | None => None
          | Some l => Some (a :: l)
          end
      end
  end.

(** [Array.from({ length }, mapfn)] for a natural-number [length], inside an
    [async] function. [capacity] is a fact of the run, not of the program:
    the largest length for which the engine at hand creates and fills the
    array (its own array limit and the memory left decide it).
    - A length above 2^32 - 1 is a RangeError in every engine.
    - A length within that limit but above [capacity] gives no array: the
      engine throws a RangeError or runs out of memory, before or while the
      elements are computed.
    - Otherwise element [i] is [mapfn(undefined, i)], and a call that throws
      rejects the promise. *)
Definition Array_from_length {A : Type} (capacity len : N)
  (mapfn : N -> option A) : Settlement (list A) :=
  if (MAX_ARRAY_LENGTH <? len)%N then RejectedRangeError
  else if (capacity <? len)%N then OutOfCapacity
  else
    match mapUntilThrow mapfn (seq 0 (N.to_nat len)) with
    | Some l => Fulfilled l
    | None => RejectedByCallback
    end.

Definition generatePromptsBatch (capacity : N) (formState : BatchFormState)
  (quantity : N) : Settlement (list jsstring) :=
  Array_from_length capacity quantity
    (fun i =>
       match keywordText formState i with
       | Some text =>
           Some (js "Generated prompt " ++ numberToString (i + 1)
                 ++ js " for " ++ text)
       | None => None
       end).

(* ================================================================== *)
(** ** Pages the program can be in, and the vocabulary of the specification *)

(** The control of a registry entry, whatever its current value. *)
Definition controlMatches (config : FieldConfig) (c : Control) : Prop :=
  match config, c with
  | SelectField _ options, SelectElement ovs _ => ovs = [] :: options
  | TextField _ _, InputElement _ => True
  | _, _ => False
  end.

(** A page on which [buildUI] has run: the cached nodes exist and
    [dom.configControls] holds one control per registry entry, in registry
    order. Edits and merges only change values. *)
Definition built (p : Page) : Prop :=
  promptInput p <> None /\ enhanceButton p <> None /\ jsonOutput p <> None /\
  Forall2 (fun kc kx => fst kx = fst kc /\ controlMatches (snd kc) (snd kx))
          CONFIG_FIELDS (configControls p).

(** FormState at an attribute key. *)
Definition formValue (p : Page) (k : jsstring) : option jsstring :=
  option_map controlValue (Obj.getOwn (configControls p) k).

(** The prompt value passes the precondition of the enhance operation. *)
Definition promptGiven (p : Page) : Prop :=
  exists v, promptInput p = Some v /\ truthy (trim v) = true.

(** The value an attribute holds once [s] has been assigned to its control:
    an enumerated attribute keeps [s] when it is the empty string or one of
    its options and is cleared otherwise; a free-text attribute keeps [s]
    without its line breaks. *)
Definition written (config : FieldConfig) (s : jsstring) : jsstring :=
  match config with
  | SelectField _ options =>
      if existsb (JsString.eqb s) ([] :: options) then s else []
  | TextField _ _ => stripNewlines s
  end.

(** The entries of the OutputDocument, by origin. *)
Definition promptPart (p : Page) : list (jsstring * jsstring) :=
  match promptInput p with
  | Some v => if truthy (trim v) then [(PROMPT, trim v)] else []
  | None => []
  end.

Definition attributePart (p : Page) : list (jsstring * jsstring) :=
  flat_map
    (fun kc =>
       let value := trim (controlValue (snd kc)) in
       if truthy value then [(fst kc, value)] else [])
    (configControls p).

Definition inheritedPart (p : Page) : list (jsstring * jsstring) :=
  match objectPrototypeValue p with
  | Some s => if truthy (trim s) then [(js "value", trim s)] else []
  | None => []
  end.

(** A key the OutputDocument may hold according to the specification. *)
Definition documentKey (k : jsstring) : Prop := k = PROMPT \/ In k registryKeys.

(** The specification's [project_roundtrip]: the OutputDocument read back as a
    FormState of the same page, a key the document lacks being empty. *)
Definition recall (doc : list (jsstring * jsstring)) (k : jsstring)
  : jsstring :=
  match Obj.getOwn doc k with Some v => v | None => [] end.

Definition holding (c : Control) (v : jsstring) : Control :=
  match c with
  | SelectElement ovs _ => SelectElement ovs v
  | InputElement _ => InputElement v
  end.

Definition project_roundtrip (p : Page) : Page :=
  let doc := buildOutput p in
  withConfigControls
    (withPromptInput p
       (match promptInput p with
        | Some _ => Some (recall doc PROMPT)
        | None => None
        end))
    (map (fun kc => (fst kc, holding (snd kc) (recall doc (fst kc))))
         (configControls p)).

(** A control after the merge of [entries]: assigned when the response has a
    string under its key, untouched otherwise. *)
Definition mergedControl (entries : list (jsstring * JSValue))
  (kc : jsstring * Control) : jsstring * Control :=
  (fst kc,
   match Obj.getOwn entries (fst kc) with
   | Some (JString s) => setControlValue (snd kc) s
   | _ => snd kc
   end).

(** The trimmed value of an attribute is not empty (a missing key counts as
    empty). *)
Definition filled (p : Page) (k : jsstring) : bool :=
  match formValue p k with
  | Some v => truthy (trim v)
  | None => false
  end.

(** The keys the specification gives the OutputDocument, in its order. *)
Definition expectedKeys (p : Page) : list jsstring :=
  match promptInput p with
  | Some v => if truthy (trim v) then [PROMPT] else []
  | None => []
  end
  ++ filter (filled p) registryKeys.

(** ** Scenarios *)

Definition number (n : positive) : JSValue := JNumber (S754_finite false n 0).

(** A fresh page in which the user has typed a prompt. *)
Definition typed (prompt : string) : Page :=
  applyEdit (main true) (EditPrompt (js prompt)).

(** The response of the specification's example. *)
Definition exampleResponse : list (jsstring * JSValue) :=
  [ (js "cameraMovement", JString (js "Pan"));
    (js "mood", number 7);
    (js "unknownKey", JString (js "x")) ].

(** One enhancement whose response is the JSON text
    [{ "__proto__": "x" }]. *)
Definition afterProtoResponse : Page :=
  fst (handleEnhanceClick (typed "a") []
         (Responded (Some (JObject [(js "__proto__", JString (js "x"))])))).

(** A literal between double quotes. *)
Definition quoted (s : string) : jsstring := [0x22%N] ++ js s ++ [0x22%N].

(** The form with two attributes chosen and no prompt. *)
Definition droneEpic : Page :=
  applyEdits [EditControl (js "mood") (js "Epic");
              EditControl (js "cameraMovement") (js "Drone")] (main true).

(** The form with two attributes chosen and the prompt "a", after one
    enhancement whose response is the JSON text [{ "__proto__": "x" }]. *)
Definition droneEpicAfterProtoResponse : Page :=
  fst (handleEnhanceClick (applyEdit droneEpic (EditPrompt (js "a"))) []
         (Responded (Some (JObject [(js "__proto__", JString (js "x"))])))).

(** A response that first reaches [Object.prototype] and then trips over
    what it left there. *)
Definition trippingResponse : list (jsstring * JSValue) :=
  [ (js "__proto__", JString (js "x"));
    (js "cameraMovement", JString (js "Pan"));
    (js "value", JString (js "y"));
    (js "mood", JString (js "Epic")) ].

(* ================================================================== *)
(** ** Sessions *)

(** The pages a session goes through: the page [main] builds, then user
    edits and clicks on the enhance button, each click with the edits made
    during its request and with the outcome of that request, which [allowed]
    constrains. *)
Inductive reachableVia (allowed : ServiceOutcome -> Prop) : Page -> Prop :=
| reach_main : reachableVia allowed (main true)
| reach_edit (p : Page) (e : UserEdit) :
    reachableVia allowed p -> reachableVia allowed (applyEdit p e)
| reach_click (p : Page) (midflight : list UserEdit) (o : ServiceOutcome) :
    reachableVia allowed p -> allowed o ->
    reachableVia allowed (fst (handleEnhanceClick p midflight o)).

Definition reachable : Page -> Prop := reachableVia (fun _ => True).

(** An outcome that brings no string under the key [__proto__]. *)
Definition protoFree (o : ServiceOutcome) : Prop :=
  match o with
  | Responded (Some data) =>
      match Object_entries data with
      | Some entries => forall s, ~ In (js "__proto__", JString s) entries
      | None => True
      end
  | _ => True
  end.

(** A value a control can hold: a [<select>] one of its option values or the
    empty string, a text input a string without line breaks. *)
Definition validControl (c : Control) : Prop :=
  match c with
  | SelectElement ovs v => In v ovs \/ v = []
  | InputElement v => stripNewlines v = v
  end.

Definition validForm (p : Page) : Prop :=
  Forall (fun kc => validControl (snd kc)) (configControls p).

(** The JSON region shows the projection of the form as it stands. *)
Definition synced (p : Page) : Prop :=
  jsonOutput p = Some (JSON_stringify (buildOutput p)).

(* ================================================================== *)
(** ** Copy and download: [handleCopyClick], [handleDownloadClick] *)

(** The copy button: its label, and the labels the pending [setTimeout]
    callbacks will put back, in the order the timers were set (they share one
    delay, so they fire in that order). *)
Record CopyButton : Type := {
  copyLabel : jsstring;
  restoreTimers : list jsstring
}.

Definition COPY_LABEL : jsstring := js "Copy JSON".
Definition COPIED_LABEL : jsstring := js "Copied!".
Definition COPY_FAILURE_NOTICE : jsstring := js "Failed to copy JSON.".
Definition COPY_FAILURE_LOG : jsstring := js "Failed to copy JSON:".

(** The copy button as [buildUI] creates it. *)
Definition freshCopyButton : CopyButton :=
  {| copyLabel := COPY_LABEL; restoreTimers := [] |}.

Inductive ToolEffect : Type :=
| ClipboardWrite (text : jsstring)
| ToolConsoleError (message : jsstring)
| ToolAlert (message : jsstring)
| SaveFile (name mime content : jsstring).

(** [handleCopyClick] up to the promise of [writeText]: the text handed to
    the clipboard; nothing when a node is missing. *)
Definition handleCopyClick (p : Page) (b : option CopyButton)
  : list ToolEffect :=
  match jsonOutput p, b with
  | Some jsonText, Some _ => [ClipboardWrite jsonText]
  | _, _ => []
  end.

(** The promise settles. Fulfilled: the label of the moment is kept for the
    timer and replaced. Rejected: the failure is logged and shown. *)
Definition copySettled (fulfilled : bool) (b : CopyButton)
  : CopyButton * list ToolEffect :=
  if fulfilled then
    ({| copyLabel := COPIED_LABEL;
        restoreTimers := restoreTimers b ++ [copyLabel b] |}, [])
  else (b, [ToolConsoleError COPY_FAILURE_LOG; ToolAlert COPY_FAILURE_NOTICE]).

(** The oldest pending timer fires. *)
Definition timerFired (b : CopyButton) : CopyButton :=
  match restoreTimers b with
  | originalText :: rest =>
      {| copyLabel := originalText; restoreTimers := rest |}
  | [] => b
  end.

(** [handleDownloadClick]: the file offered to the user; nothing when the
    output node is missing. *)
Definition handleDownloadClick (p : Page) : list ToolEffect :=
  match jsonOutput p with
  | Some jsonText => [SaveFile (js "prompt.txt") (js "text/plain") jsonText]
  | None => []
  end.

(* ================================================================== *)
(** ** Vocabulary for the behaviour at the edges *)

Definition isAlert (e : Effect) : bool :=
  match e with Alert _ => true | _ => false end.

(** A parsed response that is no mapping and not [null]: a boolean, a
    number, a string or an array. *)
Definition notMapping (v : JSValue) : bool :=
  match v with
  | JBoolean _ | JNumber _ | JString _ | JArray _ => true
  | JNull | JObject _ => false
  end.

Definition isDigitUnit (c : N) : bool := (N.leb 48 c && N.leb c 57)%N.

(** Every name [dom.configControls[key]] can resolve on a built page. *)
Definition resolvableNames : list jsstring :=
  registryKeys ++ [js "value"; js "__proto__"] ++ objectPrototypeFunctions.

(** How an enhancement can fail. *)
Definition failing (o : ServiceOutcome) : Prop :=
  o = Rejected \/ o = Responded None \/ o = Responded (Some JNull).

(* ================================================================== *)
(** ** Reading the displayed text back *)

(** A reader for the JSON texts the page displays, after the JSON grammar:
    objects whose members are strings, with the string escapes and the
    white space JSON allows. It is the yardstick for the serializer. *)
Module Reader.

Definition hexValue (c : N) : option N :=
  (if N.leb 48 c && N.leb c 57 then Some (c - 48)
   else if N.leb 97 c && N.leb c 102 then Some (c - 87)
   else if N.leb 65 c && N.leb c 70 then Some (c - 55)
   else None)%N.

Definition hex4 (a b c d : N) : option N :=
  match hexValue a, hexValue b, hexValue c, hexValue d with
  | Some x3, Some x2, Some x1, Some x0 =>
      Some (((x3 * 16 + x2) * 16 + x1) * 16 + x0)%N
  | _, _, _, _ => None
  end.

(** The character a two-character escape stands for. *)
Definition simpleEscape (e : N) : option N :=
  (if N.eqb e 0x22 then Some 0x22
   else if N.eqb e 0x5C then Some 0x5C
   else if N.eqb e 0x2F then Some 0x2F
   else if N.eqb e 0x62 then Some 0x08
   else if N.eqb e 0x66 then Some 0x0C
   else if N.eqb e 0x6E then Some 0x0A
   else if N.eqb e 0x72 then Some 0x0D
   else if N.eqb e 0x74 then Some 0x09
   else None)%N.

Definition prepend (c : N) (r : option (jsstring * jsstring))
  : option (jsstring * jsstring) :=
  option_map (fun sr => (c :: fst sr, snd sr)) r.

(** A string, from just after its opening quote: the string and what follows
    its closing quote. A raw control character, an unknown escape or the end
    of the text before the closing quote is an error. *)
Fixpoint readString (s : jsstring) : option (jsstring * jsstring) :=
  match s with
  | [] => None
  | c :: r =>
      if N.eqb c 0x22 then Some ([], r)
      else if N.eqb c 0x5C then
        match r with
        | [] => None
        | e :: r1 =>
            if N.eqb e 0x75 then
              match r1 with
              | h3 :: h2 :: h1 :: h0 :: r2 =>
                  match hex4 h3 h2 h1 h0 with
                  | Some u => prepend u (readString r2)
                  | None => None
                  end
              | _ => None
              end
            else
              match simpleEscape e with
              | Some u => prepend u (readString r1)
              | None => None
              end
        end
      else if N.ltb c 0x20 then None
      else prepend c (readString r)
  end.

Definition isWS (c : N) : bool :=
  (N.eqb c 0x20 || N.eqb c 0x09 || N.eqb c 0x0A || N.eqb c 0x0D)%N.

Fixpoint skipWS (s : jsstring) : jsstring :=
  match s with
  | [] => []
  | c :: r => if isWS c then skipWS r else s
  end.

(** One member, from the opening quote of its key. *)
Definition readMember (s : jsstring)
  : option ((jsstring * jsstring) * jsstring) :=
  match s with
  | 34%N :: r =>
      match readString r with
      | Some (k, r1) =>
          match skipWS r1 with
          | 58%N :: r2 =>
              match skipWS r2 with
              | 34%N :: r3 =>
                  match readString r3 with
                  | Some (v, r4) => Some ((k, v), r4)
                  | None => None
                  end
              | _ => None
              end
          | _ => None
          end
      | None => None
      end
  | _ => None
  end.

(** The members up to the closing brace, at most [fuel] of them. *)
Fixpoint readMembers (fuel : nat) (s : jsstring)
  : option (list (jsstring * jsstring) * jsstring) :=
  match fuel with
  | O => None
  | S fuel' =>
      match readMember (skipWS s) with
      | Some (m, r) =>
          match skipWS r with
          | 44%N :: r' =>
              option_map (fun msr => (m :: fst msr, snd msr))
                         (readMembers fuel' r')
          | 125%N :: r' => Some ([m], r')
          | _ => None
          end
      | None => None
      end
  end.

(** A whole text: one object and nothing after it. *)
Definition readDocument (s : jsstring)
  : option (list (jsstring * jsstring)) :=
  match skipWS s with
  | 123%N :: r =>
      match skipWS r with
      | 125%N :: r' =>
          match skipWS r' with [] => Some [] | _ => None end
      | r1 =>
          match readMembers (List.length s) r1 with
          | Some (ms, r') =>
              match skipWS r' with [] => Some ms | _ => None end
          | None => None
          end
      end
  | _ => None
  end.

End Reader.

(** A prompt with a quote, a backslash, a line feed, a control character
    and a lone surrogate. *)
Definition trickyPrompt : jsstring :=
  js "say " ++ [0x22; 0x5C; 0x0A; 0x01; 0xD800]%N ++ js " now".

(* ================================================================== *)
(** * Properties *)

(** ** Strings *)

Lemma eqb_eq (a b : jsstring) : JsString.eqb a b = true <-> a = b.
Proof.
  revert b; induction a as [|x a IH]; intros [|y b]; simpl;
    try (split; [discriminate | discriminate]); try tauto.
  rewrite andb_true_iff, N.eqb_eq, IH.
  split; [intros [-> ->]; reflexivity | intros H; inversion H; auto].
Qed.

Lemma eqb_refl (a : jsstring) : JsString.eqb a a = true.
Proof. apply eqb_eq; reflexivity. Qed.

Lemma eqb_neq (a b : jsstring) : JsString.eqb a b = false <-> a <> b.
Proof.
  rewrite <- eqb_eq. destruct (JsString.eqb a b); split; congruence.
Qed.

Lemma eqb_sym (a b : jsstring) : JsString.eqb a b = JsString.eqb b a.
Proof.
  destruct (JsString.eqb a b) eqn:E.
  - apply eqb_eq in E; subst; symmetry; apply eqb_refl.
  - apply eqb_neq in E. symmetry. apply eqb_neq. congruence.
Qed.

Lemma existsb_eqb_In (k : jsstring) (l : list jsstring) :
  existsb (JsString.eqb k) l = true <-> In k l.
Proof.
  rewrite existsb_exists. split.
  - intros (x & Hx & E). apply eqb_eq in E. subst; assumption.
  - intros H. exists k. split; [assumption | apply eqb_refl].
Qed.

Lemma existsb_eqb_notIn (k : jsstring) (l : list jsstring) :
  existsb (JsString.eqb k) l = false <-> ~ In k l.
Proof.
  rewrite <- existsb_eqb_In.
  destruct (existsb (JsString.eqb k) l); split; congruence.
Qed.

Lemma truthy_false (s : jsstring) : truthy s = false <-> s = [].
Proof. destruct s; simpl; split; congruence. Qed.

Lemma trimEnd_keeps_head (c : N) (r : jsstring) :
  trimmable c = false -> trimEnd (c :: r) = c :: trimEnd r.
Proof.
  intros H. simpl. rewrite H. destruct (trimEnd r); reflexivity.
Qed.

Lemma trimEnd_idempotent (s : jsstring) : trimEnd (trimEnd s) = trimEnd s.
Proof.
  induction s as [|c r IH]; [reflexivity|].
  simpl. destruct (trimEnd r) as [|x r'] eqn:E.
  - destruct (trimmable c) eqn:T; [reflexivity|].
    simpl. rewrite T. reflexivity.
  - change (trimEnd (c :: x :: r')) with
      (match trimEnd (x :: r') with
       | [] => if trimmable c then [] else [c]
       | r'' => c :: r''
       end).
    rewrite IH. reflexivity.
Qed.

Lemma trimStart_shape (s : jsstring) :
  trimStart s = [] \/
  exists c r, trimStart s = c :: r /\ trimmable c = false.
Proof.
  induction s as [|c r IH]; [left; reflexivity|].
  simpl. destruct (trimmable c) eqn:T; [exact IH|].
  right. exists c, r. split; [reflexivity | assumption].
Qed.

Lemma trim_idempotent (s : jsstring) : trim (trim s) = trim s.
Proof.
  unfold trim. destruct (trimStart_shape s) as [E | (c & r & E & T)].
  - rewrite E. reflexivity.
  - rewrite E, (trimEnd_keeps_head c r T). simpl. rewrite T.
    rewrite <- (trimEnd_keeps_head c r T). apply trimEnd_idempotent.
Qed.

Lemma trim_nil : trim [] = [].
Proof. reflexivity. Qed.

(** ** Plain objects *)

Lemma getOwn_None {A : Type} (o : list (jsstring * A)) (k : jsstring) :
  Obj.getOwn o k = None <-> ~ In k (Obj.keys o).
Proof.
  induction o as [|[k' v] o IH]; simpl; [tauto|].
  destruct (JsString.eqb k' k) eqn:E.
  - apply eqb_eq in E. split; [discriminate | intros H; exfalso; auto].
  - apply eqb_neq in E. rewrite IH. tauto.
Qed.

Lemma getOwn_In {A : Type} (o : list (jsstring * A)) (k : jsstring) (v : A) :
  NoDup (Obj.keys o) -> In (k, v) o -> Obj.getOwn o k = Some v.
Proof.
  induction o as [|[k' v'] o IH]; simpl; [tauto|].
  intros ND [E | H].
  - inversion E; subst. rewrite eqb_refl. reflexivity.
  - inversion ND as [|? ? Hn ND']; subst.
    destruct (JsString.eqb k' k) eqn:E.
    + apply eqb_eq in E; subst. exfalso. apply Hn.
      change k with (fst (k, v)). apply in_map. assumption.
    + auto.
Qed.

Lemma getOwn_Some_In {A : Type} (o : list (jsstring * A)) (k : jsstring)
  (v : A) : Obj.getOwn o k = Some v -> In (k, v) o.
Proof.
  induction o as [|[k' v'] o IH]; simpl; [discriminate|].
  destruct (JsString.eqb k' k) eqn:E.
  - apply eqb_eq in E; subst. intros H; inversion H; auto.
  - auto.
Qed.

Lemma set_keys {A : Type} (o : list (jsstring * A)) (k : jsstring) (v : A) :
  In k (Obj.keys o) -> Obj.keys (Obj.set o k v) = Obj.keys o.
Proof.
  induction o as [|[k' v'] o IH]; simpl; [tauto|].
  intros H. destruct (JsString.eqb k' k) eqn:E; [reflexivity|].
  simpl. f_equal. apply IH. destruct H as [H|H]; [|assumption].
  apply eqb_neq in E. congruence.
Qed.

Lemma set_fresh {A : Type} (o : list (jsstring * A)) (k : jsstring) (v : A) :
  ~ In k (Obj.keys o) -> Obj.set o k v = o ++ [(k, v)].
Proof.
  induction o as [|[k' v'] o IH]; simpl; [reflexivity|].
  intros H. destruct (JsString.eqb k' k) eqn:E.
  - apply eqb_eq in E. exfalso; auto.
  - f_equal. apply IH. tauto.
Qed.

(** Over unique keys an assignment touches the one property of that name. *)
Lemma set_as_map {A : Type} (o : list (jsstring * A)) (k : jsstring) (v : A) :
  NoDup (Obj.keys o) -> In k (Obj.keys o) ->
  Obj.set o k v =
  map (fun kv => if JsString.eqb (fst kv) k then (fst kv, v) else kv) o.
Proof.
  induction o as [|[k' v'] o IH]; simpl; [tauto|].
  intros ND H. inversion ND as [|? ? Hn ND']; subst.
  destruct (JsString.eqb k' k) eqn:E.
  - f_equal. apply eqb_eq in E; subst.
    rewrite <- (map_id o) at 1. apply map_ext_in.
    intros [k2 v2] Hin. simpl.
    destruct (JsString.eqb k2 k) eqn:E2; [|reflexivity].
    apply eqb_eq in E2; subst. exfalso. apply Hn.
    change k with (fst (k, v2)). apply in_map. assumption.
  - f_equal. apply IH; [assumption|].
    destruct H as [H|H]; [|assumption]. apply eqb_neq in E. congruence.
Qed.

(** ** Built pages *)

Ltac distinct_keys :=
  repeat (constructor; [vm_compute; intuition discriminate|]); constructor.

Lemma registryKeys_NoDup : NoDup registryKeys.
Proof. distinct_keys. Qed.

Lemma prompt_not_registry : ~ In PROMPT registryKeys.
Proof. vm_compute. intuition discriminate. Qed.

Lemma value_not_registry : ~ In (js "value") registryKeys.
Proof. vm_compute. intuition discriminate. Qed.

Lemma built_keys (p : Page) :
  built p -> Obj.keys (configControls p) = registryKeys.
Proof.
  intros (_ & _ & _ & F). unfold registryKeys, Obj.keys.
  induction F as [|kc kx l l' [E _] F IH]; simpl; [reflexivity|].
  rewrite E, IH. reflexivity.
Qed.

Lemma built_NoDup (p : Page) : built p -> NoDup (Obj.keys (configControls p)).
Proof. intros B. rewrite (built_keys p B). exact registryKeys_NoDup. Qed.

(** [built] on a concrete page, by evaluation. *)
Ltac built_by_evaluation :=
  repeat split; try discriminate;
  vm_compute;
  repeat (constructor; [split; [reflexivity | exact I || reflexivity]|]);
  constructor.

Lemma main_built : built (main true).
Proof. built_by_evaluation. Qed.

(** ** The projector, entry by entry *)

Lemma lookupControl_own (p : Page) (k : jsstring) (c : Control) :
  NoDup (Obj.keys (configControls p)) -> In (k, c) (configControls p) ->
  lookupControl p k = LElement c.
Proof.
  intros ND H. unfold lookupControl. rewrite (getOwn_In _ _ _ ND H). reflexivity.
Qed.

Lemma forIn_built (p : Page) :
  built p ->
  forIn p =
  map (fun kc => (fst kc, LElement (snd kc))) (configControls p)
  ++ match objectPrototypeValue p with
     | Some s => [(js "value", LString s)]
     | None => []
     end.
Proof.
  intros B. unfold forIn. f_equal.
  - apply map_ext_in. intros [k c] H. simpl.
    rewrite (lookupControl_own p k c (built_NoDup p B) H). reflexivity.
  - destruct (objectPrototypeValue p) as [s|] eqn:E; [|reflexivity].
    rewrite (built_keys p B).
    assert (N : existsb (JsString.eqb (js "value")) registryKeys = false)
      by reflexivity.
    rewrite N. unfold lookupControl.
    assert (G : Obj.getOwn (configControls p) (js "value") = None).
    { apply getOwn_None. rewrite (built_keys p B). exact value_not_registry. }
    rewrite G, eqb_refl, E. reflexivity.
Qed.

Lemma fold_set_fresh {X : Type} (f : jsstring * X -> jsstring)
  (xs : list (jsstring * X)) (acc : list (jsstring * jsstring)) :
  NoDup (map fst xs) ->
  (forall k, In k (map fst xs) -> ~ In k (Obj.keys acc)) ->
  fold_left
    (fun out kx => if truthy (f kx) then Obj.set out (fst kx) (f kx) else out)
    xs acc
  = acc ++ flat_map (fun kx => if truthy (f kx) then [(fst kx, f kx)] else [])
                    xs.
Proof.
  revert acc. induction xs as [|[k x] xs IH]; intros acc ND Fresh; simpl.
  - rewrite app_nil_r. reflexivity.
  - inversion ND as [|? ? Hn ND']; subst.
    destruct (truthy (f (k, x))) eqn:T.
    + rewrite set_fresh by (apply Fresh; left; reflexivity).
      rewrite IH; [rewrite <- app_assoc; reflexivity | assumption |].
      intros k' Hk'. unfold Obj.keys. rewrite map_app, in_app_iff. simpl.
      intros [H | [H | []]].
      * apply (Fresh k'); [right; assumption | exact H].
      * subst. contradiction.
    + apply IH; [assumption|]. intros k' Hk'. apply Fresh. right; assumption.
Qed.

Lemma promptPart_keys (p : Page) (k : jsstring) :
  In k (Obj.keys (promptPart p)) -> k = PROMPT.
Proof.
  unfold promptPart. destruct (promptInput p) as [v|]; [|intros []].
  destruct (truthy (trim v)); simpl; [|tauto]. intros [H|[]]; auto.
Qed.

(** The OutputDocument of a built page: the prompt entry, the attribute
    entries in the order of the controls, then what the prototype chain
    contributes. *)
Lemma buildOutput_parts (p : Page) :
  built p -> buildOutput p = promptPart p ++ attributePart p ++ inheritedPart p.
Proof.
  intros B.
  assert (E0 : buildOutput p =
               fold_left
                 (fun out kx =>
                    if truthy (trim (dotValue p (snd kx)))
                    then Obj.set out (fst kx) (trim (dotValue p (snd kx)))
                    else out)
                 (forIn p) (promptPart p)).
  { unfold buildOutput, promptPart.
    destruct (promptInput p) as [v|]; cbv zeta;
      [destruct (truthy (trim v))|]; reflexivity. }
  rewrite E0.
  rewrite (fold_set_fresh (fun kx => trim (dotValue p (snd kx)))).
  - f_equal. rewrite (forIn_built p B), flat_map_app. f_equal.
    + unfold attributePart. generalize (configControls p) as cs.
      induction cs as [|[k c] cs IH]; simpl; [reflexivity|].
      rewrite IH. reflexivity.
    + unfold inheritedPart.
      destruct (objectPrototypeValue p) as [s|] eqn:E; [|reflexivity].
      simpl. rewrite E, app_nil_r. reflexivity.
  - rewrite (forIn_built p B), map_app, map_map. simpl.
    change (map (fun x => fst x) (configControls p))
      with (Obj.keys (configControls p)).
    rewrite (built_keys p B).
    destruct (objectPrototypeValue p); distinct_keys.
  - intros k Hk Hp. apply promptPart_keys in Hp. subst.
    rewrite (forIn_built p B), map_app, map_map, in_app_iff in Hk. simpl in Hk.
    change (map (fun x => fst x) (configControls p))
      with (Obj.keys (configControls p)) in Hk.
    rewrite (built_keys p B) in Hk.
    destruct Hk as [H|H]; [exact (prompt_not_registry H)|].
    destruct (objectPrototypeValue p); simpl in H; [|contradiction].
    destruct H as [H|[]]. vm_compute in H. discriminate.
Qed.

Lemma attributePart_keys_sub (cs : list (jsstring * Control)) (k : jsstring) :
  In k (Obj.keys
          (flat_map
             (fun kc =>
                let value := trim (controlValue (snd kc)) in
                if truthy value then [(fst kc, value)] else []) cs)) ->
  In k (Obj.keys cs).
Proof.
  induction cs as [|[k' c] cs IH]; simpl; [tauto|].
  unfold Obj.keys in *. rewrite map_app, in_app_iff.
  intros [H|H]; [|right; auto].
  destruct (truthy (trim (controlValue c))); simpl in H; [|contradiction].
  destruct H as [H|[]]. left; assumption.
Qed.

Lemma attributePart_getOwn (cs : list (jsstring * Control)) (k : jsstring)
  (c : Control) :
  NoDup (Obj.keys cs) -> In (k, c) cs ->
  Obj.getOwn
    (flat_map
       (fun kc =>
          let value := trim (controlValue (snd kc)) in
          if truthy value then [(fst kc, value)] else []) cs) k
  = if truthy (trim (controlValue c)) then Some (trim (controlValue c))
    else None.
Proof.
  induction cs as [|[k' c'] cs IH]; simpl; [tauto|].
  intros ND H. inversion ND as [|? ? Hn ND']; subst.
  destruct H as [H|H].
  - inversion H; subst.
    destruct (truthy (trim (controlValue c))) eqn:T; simpl.
    + rewrite eqb_refl. reflexivity.
    + apply getOwn_None. intros Hk. apply Hn.
      apply attributePart_keys_sub. exact Hk.
  - assert (k' <> k).
    { intros ->. apply Hn. change k with (fst (k, c)). apply in_map. exact H. }
    destruct (truthy (trim (controlValue c'))); simpl.
    + assert (E : JsString.eqb k' k = false) by (apply eqb_neq; assumption).
      rewrite E. auto.
    + auto.
Qed.

Lemma formValue_In (p : Page) (k : jsstring) (c : Control) :
  NoDup (Obj.keys (configControls p)) -> In (k, c) (configControls p) ->
  formValue p k = Some (controlValue c).
Proof.
  intros ND H. unfold formValue. rewrite (getOwn_In _ _ _ ND H). reflexivity.
Qed.

Lemma flat_map_keys_filter (f : jsstring -> bool)
  (cs : list (jsstring * Control)) :
  (forall k c, In (k, c) cs -> f k = truthy (trim (controlValue c))) ->
  Obj.keys
    (flat_map
       (fun kc =>
          let value := trim (controlValue (snd kc)) in
          if truthy value then [(fst kc, value)] else []) cs)
  = filter f (Obj.keys cs).
Proof.
  induction cs as [|[k c] cs IH]; intros G; simpl; [reflexivity|].
  unfold Obj.keys in *. rewrite map_app.
  rewrite (G k c) by (left; reflexivity).
  rewrite IH by (intros; apply G; right; assumption).
  destruct (truthy (trim (controlValue c))); reflexivity.
Qed.

Lemma attributePart_keys (p : Page) :
  NoDup (Obj.keys (configControls p)) ->
  Obj.keys (attributePart p) = filter (filled p) (Obj.keys (configControls p)).
Proof.
  intros ND. unfold attributePart. apply flat_map_keys_filter.
  intros k c H. unfold filled. rewrite (formValue_In p k c ND H). reflexivity.
Qed.

(** Every value of the OutputDocument is trimmed and not empty. *)
Lemma project_values_filled (p : Page) (k v : jsstring) :
  built p -> In (k, v) (buildOutput p) -> truthy v = true /\ trim v = v.
Proof.
  intros B. rewrite (buildOutput_parts p B), !in_app_iff.
  unfold promptPart, attributePart, inheritedPart.
  intros [H | [H | H]].
  - destruct (promptInput p) as [x|]; [|contradiction].
    destruct (truthy (trim x)) eqn:T; [|contradiction].
    destruct H as [H|[]]. inversion H; subst.
    split; [assumption | apply trim_idempotent].
  - apply in_flat_map in H. destruct H as ([k' c] & _ & H). simpl in H.
    destruct (truthy (trim (controlValue c))) eqn:T; [|contradiction].
    destruct H as [H|[]]. inversion H; subst.
    split; [assumption | apply trim_idempotent].
  - destruct (objectPrototypeValue p) as [x|]; [|contradiction].
    destruct (truthy (trim x)) eqn:T; [|contradiction].
    destruct H as [H|[]]. inversion H; subst.
    split; [assumption | apply trim_idempotent].
Qed.

(** While [Object.prototype] has no [value] property, every key of the
    OutputDocument is the prompt key or a registry key. *)
Lemma project_keys_known (p : Page) (k : jsstring) :
  built p -> objectPrototypeValue p = None ->
  In k (Obj.keys (buildOutput p)) -> documentKey k.
Proof.
  intros B E. rewrite (buildOutput_parts p B). unfold Obj.keys.
  rewrite !map_app, !in_app_iff. unfold inheritedPart. rewrite E. simpl.
  intros [H | [H | []]].
  - left. apply (promptPart_keys p). exact H.
  - right. rewrite <- (built_keys p B).
    apply attributePart_keys_sub. exact H.
Qed.


(** ** What the steps of the handler leave alone *)

Lemma set_update_as_map {A : Type} (g : A -> A) (o : list (jsstring * A))
  (k : jsstring) (c : A) :
  NoDup (Obj.keys o) -> Obj.getOwn o k = Some c ->
  Obj.set o k (g c) =
  map (fun kv => if JsString.eqb (fst kv) k then (fst kv, g (snd kv)) else kv)
      o.
Proof.
  induction o as [|[k' v'] o IH]; simpl; [discriminate|].
  intros ND H. inversion ND as [|? ? Hn ND']; subst.
  destruct (JsString.eqb k' k) eqn:E.
  - inversion H; subst. f_equal. apply eqb_eq in E; subst.
    rewrite <- (map_id o) at 1. apply map_ext_in.
    intros [k2 v2] Hin. simpl.
    destruct (JsString.eqb k2 k) eqn:E2; [|reflexivity].
    apply eqb_eq in E2; subst. exfalso. apply Hn.
    change k with (fst (k, v2)). apply in_map. assumption.
  - f_equal. apply IH; assumption.
Qed.

Lemma Forall2_map_right {A B : Type} (R : A -> B -> Prop) (g : B -> B)
  (l : list A) (l' : list B) :
  (forall a b, R a b -> R a (g b)) -> Forall2 R l l' -> Forall2 R l (map g l').
Proof.
  intros G F. induction F; simpl; constructor; auto.
Qed.

Lemma controlMatches_set (config : FieldConfig) (c : Control) (v : jsstring) :
  controlMatches config c -> controlMatches config (setControlValue c v).
Proof. destruct config, c; simpl; auto. Qed.

Lemma built_assign (p : Page) (key : jsstring) (c : Control) (v : jsstring) :
  built p -> Obj.getOwn (configControls p) key = Some c ->
  built (withConfigControls p
           (Obj.set (configControls p) key (setControlValue c v))).
Proof.
  intros B G. pose proof (built_NoDup p B) as ND.
  destruct B as (B1 & B2 & B3 & F). repeat split; try assumption.
  simpl. rewrite (set_update_as_map (fun c => setControlValue c v) _ _ _ ND G).
  apply Forall2_map_right; [|exact F].
  intros [k cfg] [k' c'] [E M]. simpl in *.
  destruct (JsString.eqb k' key); simpl; split; auto.
  apply controlMatches_set. exact M.
Qed.

Lemma lookupControl_element (p : Page) (key : jsstring) (c : Control) :
  lookupControl p key = LElement c ->
  Obj.getOwn (configControls p) key = Some c.
Proof.
  unfold lookupControl. destruct (Obj.getOwn (configControls p) key).
  - intros H; inversion H; reflexivity.
  - destruct (JsString.eqb key (js "value")).
    + destruct (objectPrototypeValue p); discriminate.
    + destruct (JsString.eqb key (js "__proto__")); [discriminate|].
      destruct (existsb _ _); discriminate.
Qed.

(** A property of pages that survives an assignment to a control and an
    assignment to [Object.prototype.value] survives the merge loop. *)
Lemma mergeEntries_invariant (Q : Page -> Prop) :
  (forall p key c s,
      Q p -> Obj.getOwn (configControls p) key = Some c ->
      Q (withConfigControls p
           (Obj.set (configControls p) key (setControlValue c s)))) ->
  (forall p s, Q p -> Q (withObjectPrototypeValue p (Some s))) ->
  forall entries p, Q p -> Q (fst (mergeEntries entries p)).
Proof.
  intros HC HP. induction entries as [|[key value] rest IH]; intros p HQ;
    simpl; [assumption|].
  destruct value; try (apply IH; assumption).
  destruct (lookupControl p key) as [c|t| | |] eqn:L; simpl.
  - apply IH. apply HC; [assumption|]. apply lookupControl_element. exact L.
  - destruct (truthy t); [assumption | apply IH; assumption].
  - apply IH. apply HP. assumption.
  - apply IH. assumption.
  - apply IH. assumption.
Qed.

Lemma mergeEntries_built (entries : list (jsstring * JSValue)) (p : Page) :
  built p -> built (fst (mergeEntries entries p)).
Proof.
  apply (mergeEntries_invariant built).
  - intros. apply built_assign; assumption.
  - intros q s (B1 & B2 & B3 & F). repeat split; assumption.
Qed.

Lemma mergeEntries_promptInput (entries : list (jsstring * JSValue))
  (p : Page) : promptInput (fst (mergeEntries entries p)) = promptInput p.
Proof.
  apply (mergeEntries_invariant (fun q => promptInput q = promptInput p));
    auto.
Qed.

Lemma mergeEntries_enhanceButton (entries : list (jsstring * JSValue))
  (p : Page) : enhanceButton (fst (mergeEntries entries p)) = enhanceButton p.
Proof.
  apply (mergeEntries_invariant (fun q => enhanceButton q = enhanceButton p));
    auto.
Qed.

Lemma mergeEntries_jsonOutput (entries : list (jsstring * JSValue))
  (p : Page) : jsonOutput (fst (mergeEntries entries p)) = jsonOutput p.
Proof.
  apply (mergeEntries_invariant (fun q => jsonOutput q = jsonOutput p)); auto.
Qed.

Lemma buildOutput_ext (p q : Page) :
  promptInput p = promptInput q -> configControls p = configControls q ->
  objectPrototypeValue p = objectPrototypeValue q ->
  buildOutput p = buildOutput q.
Proof.
  destruct p, q; simpl. intros -> -> ->. reflexivity.
Qed.

Lemma generate_promptInput (p : Page) :
  promptInput (generateAndDisplayJSON p) = promptInput p.
Proof. unfold generateAndDisplayJSON. destruct (jsonOutput p); reflexivity. Qed.

Lemma generate_enhanceButton (p : Page) :
  enhanceButton (generateAndDisplayJSON p) = enhanceButton p.
Proof. unfold generateAndDisplayJSON. destruct (jsonOutput p); reflexivity. Qed.

Lemma generate_configControls (p : Page) :
  configControls (generateAndDisplayJSON p) = configControls p.
Proof. unfold generateAndDisplayJSON. destruct (jsonOutput p); reflexivity. Qed.

Lemma generate_objectPrototypeValue (p : Page) :
  objectPrototypeValue (generateAndDisplayJSON p) = objectPrototypeValue p.
Proof. unfold generateAndDisplayJSON. destruct (jsonOutput p); reflexivity. Qed.

Lemma generate_jsonOutput (p : Page) :
  jsonOutput p <> None ->
  jsonOutput (generateAndDisplayJSON p) = Some (JSON_stringify (buildOutput p)).
Proof.
  unfold generateAndDisplayJSON. destruct (jsonOutput p); [reflexivity|].
  intros H; contradiction H; reflexivity.
Qed.

Lemma generate_built (p : Page) : built p -> built (generateAndDisplayJSON p).
Proof.
  intros (B1 & B2 & B3 & F). unfold built.
  rewrite generate_promptInput, generate_enhanceButton,
    generate_configControls, (generate_jsonOutput p B3).
  repeat split; try assumption. discriminate.
Qed.

Lemma applyEdit_built (p : Page) (e : UserEdit) :
  built p -> built (applyEdit p e).
Proof.
  intros B. unfold applyEdit. apply generate_built. destruct e as [v|key v].
  - destruct (promptInput p) eqn:E; [|assumption].
    destruct B as (B1 & B2 & B3 & F). repeat split; try assumption.
    simpl. discriminate.
  - destruct (Obj.getOwn (configControls p) key) eqn:E; [|assumption].
    apply built_assign; assumption.
Qed.

Lemma applyEdits_built (edits : list UserEdit) (p : Page) :
  built p -> built (applyEdits edits p).
Proof.
  revert p. induction edits as [|e es IH]; intros p B; simpl; [assumption|].
  apply IH. apply applyEdit_built. assumption.
Qed.

Lemma applyEdit_enhanceButton (p : Page) (e : UserEdit) :
  enhanceButton (applyEdit p e) = enhanceButton p.
Proof.
  unfold applyEdit. rewrite generate_enhanceButton. destruct e.
  - destruct (promptInput p); reflexivity.
  - destruct (Obj.getOwn (configControls p) key); reflexivity.
Qed.

Lemma applyEdits_enhanceButton (edits : list UserEdit) (p : Page) :
  enhanceButton (applyEdits edits p) = enhanceButton p.
Proof.
  revert p. induction edits as [|e es IH]; intros p; simpl; [reflexivity|].
  rewrite IH. apply applyEdit_enhanceButton.
Qed.

Lemma typed_built (s : string) : built (typed s).
Proof. apply applyEdit_built. exact main_built. Qed.

Lemma generate_withEnhanceButton (p : Page) (b : option Button) :
  generateAndDisplayJSON (withEnhanceButton p b)
  = withEnhanceButton (generateAndDisplayJSON p) b.
Proof.
  destruct p as [pi eb jo cs opv]. unfold generateAndDisplayJSON. simpl.
  destruct jo; reflexivity.
Qed.

Lemma applyEdit_withEnhanceButton (p : Page) (b : option Button)
  (e : UserEdit) :
  applyEdit (withEnhanceButton p b) e = withEnhanceButton (applyEdit p e) b.
Proof.
  unfold applyEdit. rewrite <- generate_withEnhanceButton. f_equal.
  destruct e as [v|key v]; simpl.
  - destruct (promptInput p); reflexivity.
  - destruct (Obj.getOwn (configControls p) key); reflexivity.
Qed.

Lemma applyEdits_withEnhanceButton (edits : list UserEdit) (p : Page)
  (b : option Button) :
  applyEdits edits (withEnhanceButton p b)
  = withEnhanceButton (applyEdits edits p) b.
Proof.
  revert p. induction edits as [|e es IH]; intros p; simpl; [reflexivity|].
  rewrite applyEdit_withEnhanceButton. apply IH.
Qed.

Lemma applyEdit_jsonOutput (p : Page) (e : UserEdit) :
  jsonOutput p <> None -> jsonOutput (applyEdit p e) <> None.
Proof.
  intros H. unfold applyEdit. rewrite generate_jsonOutput; [discriminate|].
  destruct e as [v|key v].
  - destruct (promptInput p); exact H.
  - destruct (Obj.getOwn (configControls p) key); exact H.
Qed.

Lemma applyEdits_jsonOutput (edits : list UserEdit) (p : Page) :
  jsonOutput p <> None -> jsonOutput (applyEdits edits p) <> None.
Proof.
  revert p. induction edits as [|e es IH]; intros p H; simpl; [assumption|].
  apply IH. apply applyEdit_jsonOutput. assumption.
Qed.

Lemma enhanceTry_enhanceButton (p : Page) (o : ServiceOutcome) :
  enhanceButton (fst (enhanceTry p o)) = enhanceButton p.
Proof.
  destruct o as [|[data|]]; simpl; try reflexivity.
  destruct (Object_entries data) as [entries|]; [|reflexivity].
  pose proof (mergeEntries_enhanceButton entries p) as H.
  destruct (mergeEntries entries p) as [q [e|]]; exact H.
Qed.

Lemma enhanceTry_jsonOutput (p : Page) (o : ServiceOutcome) :
  jsonOutput (fst (enhanceTry p o)) = jsonOutput p.
Proof.
  destruct o as [|[data|]]; simpl; try reflexivity.
  destruct (Object_entries data) as [entries|]; [|reflexivity].
  pose proof (mergeEntries_jsonOutput entries p) as H.
  destruct (mergeEntries entries p) as [q [e|]]; exact H.
Qed.

Lemma enhanceTry_promptInput (p : Page) (o : ServiceOutcome) :
  promptInput (fst (enhanceTry p o)) = promptInput p.
Proof.
  destruct o as [|[data|]]; simpl; try reflexivity.
  destruct (Object_entries data) as [entries|]; [|reflexivity].
  pose proof (mergeEntries_promptInput entries p) as H.
  destruct (mergeEntries entries p) as [q [e|]]; exact H.
Qed.

Lemma enhanceResume_fst (p : Page) (o : ServiceOutcome) :
  fst (enhanceResume p o) = enhanceFinally (fst (enhanceTry p o)).
Proof. unfold enhanceResume. destruct (enhanceTry p o); reflexivity. Qed.

Lemma enhanceResume_snd (p : Page) (o : ServiceOutcome) :
  snd (enhanceResume p o) = snd (enhanceTry p o).
Proof. unfold enhanceResume. destruct (enhanceTry p o); reflexivity. Qed.

Lemma enhanceFinally_formState (p : Page) :
  formState (enhanceFinally p) = formState p.
Proof.
  unfold enhanceFinally, formState. simpl.
  rewrite generate_promptInput, generate_configControls. reflexivity.
Qed.

(** A click with a prompt: the request goes out, the edits made meanwhile
    land, then the [try] and the [finally] blocks run. *)
Lemma handleEnhanceClick_awaits (p : Page) (v : jsstring)
  (midflight : list UserEdit) (o : ServiceOutcome) :
  promptInput p = Some v -> truthy (trim v) = true ->
  enhanceButton p <> None ->
  let waiting :=
    withEnhanceButton p
      (Some {| disabled := true; textContent := LOADING_LABEL |}) in
  handleEnhanceClick p midflight o =
  (enhanceFinally (fst (enhanceTry (applyEdits midflight waiting) o)),
   requestFor (trim v) :: snd (enhanceTry (applyEdits midflight waiting) o)).
Proof.
  intros Hv Ht Hb waiting. unfold handleEnhanceClick, enhanceBegin.
  rewrite Hv. destruct (enhanceButton p) as [b|]; [|contradiction Hb; reflexivity].
  cbv zeta. rewrite Ht. simpl negb. cbv iota.
  fold waiting. rewrite (surjective_pairing (enhanceResume _ o)).
  rewrite enhanceResume_fst, enhanceResume_snd. reflexivity.
Qed.

(** C2. When the prompt trims to the empty string, the handler shows the
    validation notice and returns: the page, FormState included, is the one
    it was given, and no request is sent. *)
Theorem enhance_rejects_blank_prompt (p : Page) (v : jsstring)
  (midflight : list UserEdit) (o : ServiceOutcome) :
  promptInput p = Some v -> enhanceButton p <> None -> trim v = [] ->
  handleEnhanceClick p midflight o = (p, [Alert EMPTY_PROMPT_NOTICE])
  /\ formState (fst (handleEnhanceClick p midflight o)) = formState p
  /\ existsb isGenerateContent (snd (handleEnhanceClick p midflight o))
     = false.
Proof.
  intros Hv Hb Ht.
  assert (E : handleEnhanceClick p midflight o
              = (p, [Alert EMPTY_PROMPT_NOTICE])).
  { unfold handleEnhanceClick, enhanceBegin. rewrite Hv.
    destruct (enhanceButton p); [|contradiction Hb; reflexivity].
    cbv zeta. rewrite Ht. reflexivity. }
  rewrite E. repeat split.
Qed.

Lemma enhance_rejects_blank_prompt_witness :
  promptInput (typed "   ") = Some (js "   ")
  /\ enhanceButton (typed "   ") <> None
  /\ trim (js "   ") = []
  /\ handleEnhanceClick (typed "   ") []
       (Responded (Some (JObject exampleResponse)))
     = (typed "   ", [Alert EMPTY_PROMPT_NOTICE]).
Proof.
  assert (H1 : promptInput (typed "   ") = Some (js "   ")) by reflexivity.
  assert (H2 : enhanceButton (typed "   ") <> None) by (vm_compute; discriminate).
  assert (H3 : trim (js "   ") = []) by reflexivity.
  split; [exact H1 | split; [exact H2 | split; [exact H3|]]].
  exact (proj1 (enhance_rejects_blank_prompt (typed "   ") (js "   ") []
                  (Responded (Some (JObject exampleResponse))) H1 H2 H3)).
Defined.

(** C5. When the request fails or its response text does not parse, the
    failure is logged and shown to the user, and the handler writes nothing
    into FormState: the form holds what the user put there (with no edit
    during the request, exactly what it held at the click), and
    [Object.prototype] is untouched. *)
Theorem enhance_failure_keeps_form (p : Page) (v : jsstring)
  (midflight : list UserEdit) (o : ServiceOutcome) :
  promptInput p = Some v -> truthy (trim v) = true ->
  enhanceButton p <> None ->
  o = Rejected \/ o = Responded None ->
  let r := handleEnhanceClick p midflight o in
  formState (fst r) = formState (applyEdits midflight p)
  /\ (midflight = [] -> formState (fst r) = formState p)
  /\ objectPrototypeValue (fst r)
     = objectPrototypeValue (applyEdits midflight p)
  /\ exists e,
       snd r = [requestFor (trim v); ConsoleError FAILURE_LOG e;
                Alert FAILURE_NOTICE].
Proof.
  intros Hv Ht Hb Ho r. subst r.
  rewrite (handleEnhanceClick_awaits p v midflight o Hv Ht Hb). cbv zeta.
  rewrite applyEdits_withEnhanceButton.
  set (q := applyEdits midflight p).
  assert (F : formState
                (fst (enhanceFinally
                        (fst (enhanceTry (withEnhanceButton q
                           (Some {| disabled := true;
                                    textContent := LOADING_LABEL |})) o)),
                      requestFor (trim v)
                      :: snd (enhanceTry (withEnhanceButton q
                           (Some {| disabled := true;
                                    textContent := LOADING_LABEL |})) o)))
              = formState q).
  { simpl fst. rewrite enhanceFinally_formState.
    destruct Ho as [-> | ->]; reflexivity. }
  split; [exact F|]. split; [intros ->; exact F|]. split.
  - simpl fst. unfold enhanceFinally. simpl.
    rewrite generate_objectPrototypeValue.
    destruct Ho as [-> | ->]; reflexivity.
  - destruct Ho as [-> | ->]; [exists RequestError | exists SyntaxError];
      reflexivity.
Qed.

Lemma enhance_failure_keeps_form_witness :
  promptInput (typed "a cat") = Some (js "a cat")
  /\ truthy (trim (js "a cat")) = true
  /\ enhanceButton (typed "a cat") <> None
  /\ formState (fst (handleEnhanceClick (typed "a cat") [] (Responded None)))
     = formState (typed "a cat").
Proof.
  assert (H1 : promptInput (typed "a cat") = Some (js "a cat")) by reflexivity.
  assert (H2 : truthy (trim (js "a cat")) = true) by reflexivity.
  assert (H3 : enhanceButton (typed "a cat") <> None)
    by (vm_compute; discriminate).
  split; [exact H1 | split; [exact H2 | split; [exact H3|]]].
  exact (proj1 (enhance_failure_keeps_form (typed "a cat") (js "a cat") []
                  (Responded None) H1 H2 H3 (or_intror eq_refl))).
Defined.

(** C6. Once the prompt has passed the precondition, whatever the outcome of
    the request, of the parse and of the merge, and whatever the user edits
    meanwhile, the handler ends by showing the JSON of the form as it then
    stands and by giving the button back enabled under its idle label. *)
Theorem enhance_finally_runs (p : Page) (v : jsstring)
  (midflight : list UserEdit) (o : ServiceOutcome) :
  promptInput p = Some v -> truthy (trim v) = true ->
  enhanceButton p <> None -> jsonOutput p <> None ->
  let p' := fst (handleEnhanceClick p midflight o) in
  jsonOutput p' = Some (JSON_stringify (buildOutput p'))
  /\ enhanceButton p'
     = Some {| disabled := false; textContent := IDLE_LABEL |}.
Proof.
  intros Hv Ht Hb Hj p'. subst p'.
  rewrite (handleEnhanceClick_awaits p v midflight o Hv Ht Hb). cbv zeta.
  simpl fst. rewrite applyEdits_withEnhanceButton.
  set (q := withEnhanceButton (applyEdits midflight p) _).
  set (t := fst (enhanceTry q o)).
  assert (Tj : jsonOutput t <> None).
  { subst t. rewrite enhanceTry_jsonOutput. subst q. simpl.
    apply applyEdits_jsonOutput. exact Hj. }
  assert (Tb : enhanceButton t <> None).
  { subst t. rewrite enhanceTry_enhanceButton. subst q. simpl. discriminate. }
  split.
  - unfold enhanceFinally. simpl jsonOutput.
    rewrite (generate_jsonOutput t Tj). do 2 f_equal.
    apply buildOutput_ext; simpl.
    + symmetry. apply generate_promptInput.
    + symmetry. apply generate_configControls.
    + symmetry. apply generate_objectPrototypeValue.
  - unfold enhanceFinally. simpl enhanceButton.
    rewrite generate_enhanceButton.
    destruct (enhanceButton t); [reflexivity | contradiction Tb; reflexivity].
Qed.

Lemma enhance_finally_runs_witness :
  promptInput (typed "a cat") = Some (js "a cat")
  /\ truthy (trim (js "a cat")) = true
  /\ enhanceButton (typed "a cat") <> None
  /\ jsonOutput (typed "a cat") <> None
  /\ enhanceButton (fst (handleEnhanceClick (typed "a cat") [] Rejected))
     = Some {| disabled := false; textContent := IDLE_LABEL |}.
Proof.
  assert (H1 : promptInput (typed "a cat") = Some (js "a cat")) by reflexivity.
  assert (H2 : truthy (trim (js "a cat")) = true) by reflexivity.
  assert (H3 : enhanceButton (typed "a cat") <> None)
    by (vm_compute; discriminate).
  assert (H4 : jsonOutput (typed "a cat") <> None)
    by (vm_compute; discriminate).
  split; [exact H1 | split; [exact H2 | split; [exact H3 | split; [exact H4|]]]].
  exact (proj2 (enhance_finally_runs (typed "a cat") (js "a cat") []
                  Rejected H1 H2 H3 H4)).
Defined.

(** On a built page the key [prompt] names no control and nothing inherited:
    [dom.configControls["prompt"]] is undefined. *)
Lemma lookupControl_prompt (p : Page) :
  built p -> lookupControl p PROMPT = LUndefined.
Proof.
  intros B. unfold lookupControl.
  assert (G : Obj.getOwn (configControls p) PROMPT = None).
  { apply getOwn_None. rewrite (built_keys p B). exact prompt_not_registry. }
  rewrite G. reflexivity.
Qed.

(** C8. Whatever the parsed response holds, a member named [prompt]
    included, the merge loop leaves the prompt field as it found it, and so
    does everything the handler does once the request has settled; on a built
    page a member named [prompt] is dropped without any assignment. *)
Theorem merge_keeps_prompt (p : Page) :
  (forall entries, promptInput (fst (mergeEntries entries p)) = promptInput p)
  /\ (forall o, promptInput (fst (enhanceResume p o)) = promptInput p)
  /\ (forall q v, built q ->
                   fst (mergeEntries [(PROMPT, JString v)] q) = q).
Proof.
  split; [|split].
  - intros entries. apply mergeEntries_promptInput.
  - intros o. rewrite enhanceResume_fst. unfold enhanceFinally. simpl.
    rewrite generate_promptInput. apply enhanceTry_promptInput.
  - intros q v B. cbn [mergeEntries].
    rewrite (lookupControl_prompt q B). reflexivity.
Qed.


Lemma enhanceTry_built (p : Page) (o : ServiceOutcome) :
  built p -> built (fst (enhanceTry p o)).
Proof.
  intros B. destruct o as [|[data|]]; simpl; try assumption.
  destruct (Object_entries data) as [entries|]; [|assumption].
  pose proof (mergeEntries_built entries p B) as M.
  destruct (mergeEntries entries p) as [q [e|]]; exact M.
Qed.

Lemma withEnhanceButton_built (p : Page) (b : Button) :
  built p -> built (withEnhanceButton p (Some b)).
Proof.
  intros (B1 & B2 & B3 & F). repeat split; try assumption. discriminate.
Qed.

Lemma enhanceFinally_built (p : Page) : built p -> built (enhanceFinally p).
Proof.
  intros B. apply generate_built in B. unfold enhanceFinally.
  destruct (enhanceButton (generateAndDisplayJSON p)) as [b|] eqn:E.
  - apply withEnhanceButton_built. exact B.
  - destruct B as (_ & B2 & _). contradiction.
Qed.

(** Being built is an invariant of the page: a click on the enhance button,
    with whatever happens during the request, keeps it. *)
Lemma handleEnhanceClick_built (p : Page) (midflight : list UserEdit)
  (o : ServiceOutcome) :
  built p -> built (fst (handleEnhanceClick p midflight o)).
Proof.
  intros B. unfold handleEnhanceClick, enhanceBegin.
  destruct (promptInput p) as [v|]; [|exact B].
  destruct (enhanceButton p) as [b|]; [|exact B].
  cbv zeta. destruct (negb (truthy (trim v))); [exact B|].
  rewrite (surjective_pairing (enhanceResume _ o)). cbn [fst].
  rewrite enhanceResume_fst. apply enhanceFinally_built, enhanceTry_built,
    applyEdits_built, withEnhanceButton_built. exact B.
Qed.

(** The keys of the OutputDocument of a built page: the prompt key first
    when the trimmed prompt is not empty, then the registry keys in registry
    order, those with an empty trimmed value skipped; what follows them is no
    prompt or registry key, and nothing follows while [Object.prototype] is
    as in a fresh page. *)
Lemma project_key_order (p : Page) :
  built p ->
  exists rest,
    Obj.keys (buildOutput p) = expectedKeys p ++ rest
    /\ (forall k, In k rest -> ~ documentKey k)
    /\ (objectPrototypeValue p = None -> rest = []).
Proof.
  intros B. exists (Obj.keys (inheritedPart p)).
  split; [|split].
  - rewrite (buildOutput_parts p B). unfold Obj.keys, expectedKeys.
    rewrite !map_app, <- app_assoc. f_equal; [|f_equal].
    + unfold promptPart. destruct (promptInput p) as [v|]; [|reflexivity].
      destruct (truthy (trim v)); reflexivity.
    + change (map fst (attributePart p)) with (Obj.keys (attributePart p)).
      rewrite (attributePart_keys p (built_NoDup p B)), (built_keys p B).
      reflexivity.
  - unfold inheritedPart. intros k H.
    destruct (objectPrototypeValue p) as [s|]; [|contradiction].
    destruct (truthy (trim s)); [|contradiction].
    destruct H as [H|[]]. subst. intros [E|E].
    + vm_compute in E. discriminate.
    + exact (value_not_registry E).
  - intros E. unfold inheritedPart. rewrite E. reflexivity.
Qed.

(** ** The merge, entry by entry *)

Lemma withConfigControls_twice (p : Page) (x y : list (jsstring * Control)) :
  withConfigControls (withConfigControls p x) y = withConfigControls p y.
Proof. reflexivity. Qed.

Lemma withConfigControls_same (p : Page) :
  withConfigControls p (configControls p) = p.
Proof. destruct p; reflexivity. Qed.

Lemma mergeEntries_skip (key : jsstring) (value : JSValue)
  (rest : list (jsstring * JSValue)) (p : Page) :
  typeofIsString value = false ->
  mergeEntries ((key, value) :: rest) p = mergeEntries rest p.
Proof. destruct value; simpl; intros H; (discriminate || reflexivity). Qed.

Lemma mergedControl_skip (key : jsstring) (value : JSValue)
  (rest : list (jsstring * JSValue)) (kc : jsstring * Control) :
  ~ In key (Obj.keys rest) ->
  typeofIsString value = false \/ fst kc <> key ->
  mergedControl ((key, value) :: rest) kc = mergedControl rest kc.
Proof.
  intros Hn H. unfold mergedControl. simpl.
  destruct (JsString.eqb key (fst kc)) eqn:E; [|reflexivity].
  apply eqb_eq in E. destruct H as [H|H]; [|congruence].
  rewrite <- E. apply getOwn_None in Hn. rewrite Hn.
  destruct value; (discriminate || reflexivity).
Qed.

Lemma mergedControl_nil (kc : jsstring * Control) : mergedControl [] kc = kc.
Proof. destruct kc; reflexivity. Qed.

(** On a page whose [Object.prototype] is clean, a response with unique keys
    and no string under [__proto__] is merged without error, and the merge is
    one assignment per control that has a string in the response. *)
Lemma mergeEntries_exact (entries : list (jsstring * JSValue)) :
  forall p : Page,
    NoDup (Obj.keys (configControls p)) ->
    objectPrototypeValue p = None ->
    NoDup (Obj.keys entries) ->
    (forall s, ~ In (js "__proto__", JString s) entries) ->
    mergeEntries entries p
    = (withConfigControls p (map (mergedControl entries) (configControls p)),
       None).
Proof.
  induction entries as [|[key value] rest IH]; intros p ND OP NDe NP.
  - simpl. rewrite (map_ext _ _ mergedControl_nil), map_id,
      withConfigControls_same. reflexivity.
  - inversion NDe as [|? ? Hn NDr]; subst.
    assert (NPr : forall s, ~ In (js "__proto__", JString s) rest).
    { intros s H. apply (NP s). right. exact H. }
    destruct (typeofIsString value) eqn:TS.
    + destruct value as [| | |s| |]; try discriminate. cbn [mergeEntries].
      destruct (Obj.getOwn (configControls p) key) as [c|] eqn:G.
      * unfold lookupControl. rewrite G. cbn [looksTruthy assignValue].
        rewrite IH; try assumption.
        -- rewrite withConfigControls_twice. do 2 f_equal.
           cbn [configControls withConfigControls].
           rewrite (set_update_as_map (fun c => setControlValue c s)
                      _ _ _ ND G), map_map.
           apply map_ext. intros [k' c']. cbn [fst snd].
           destruct (JsString.eqb k' key) eqn:E.
           ++ apply eqb_eq in E; subst. unfold mergedControl. cbn [fst snd].
              cbn [Obj.getOwn]. rewrite eqb_refl.
              apply getOwn_None in Hn. rewrite Hn. reflexivity.
           ++ symmetry. apply mergedControl_skip; [exact Hn|].
              right. apply eqb_neq in E. exact E.
        -- cbn [configControls withConfigControls].
           rewrite set_keys; [exact ND|].
           apply getOwn_Some_In in G. change key with (fst (key, c)).
           apply in_map. exact G.
      * assert (L : lookupControl p key = LUndefined
                    \/ lookupControl p key = LFunction).
        { unfold lookupControl. rewrite G, OP.
          destruct (JsString.eqb key (js "value")); [left; reflexivity|].
          destruct (JsString.eqb key (js "__proto__")) eqn:E.
          - apply eqb_eq in E; subst. exfalso. apply (NP s). left. reflexivity.
          - destruct (existsb _ _); [right | left]; reflexivity. }
        assert (M : map (mergedControl ((key, JString s) :: rest))
                        (configControls p)
                    = map (mergedControl rest) (configControls p)).
        { apply map_ext_in. intros [k' c'] Hin.
          apply mergedControl_skip; [exact Hn|]. right. cbn [fst].
          intros ->. apply getOwn_None in G. apply G.
          change key with (fst (key, c')). apply in_map. exact Hin. }
        rewrite M. destruct L as [L|L]; rewrite L; cbn [looksTruthy assignValue];
          apply IH; assumption.
    + rewrite (mergeEntries_skip key value rest p TS).
      rewrite IH by assumption. do 2 f_equal.
      apply map_ext. intros kc. symmetry.
      apply mergedControl_skip; [exact Hn | left; exact TS].
Qed.

Lemma Forall2_In_left {A B : Type} (R : A -> B -> Prop) (l : list A)
  (l' : list B) (a : A) :
  Forall2 R l l' -> In a l -> exists b, In b l' /\ R a b.
Proof.
  intros F. induction F as [|x y l l' Rxy F IH]; intros H; [contradiction|].
  destruct H as [H|H].
  - subst x. exists y. split; [left; reflexivity | exact Rxy].
  - destruct (IH H) as (b & Hin & Rb). exists b.
    split; [right; exact Hin | exact Rb].
Qed.

Lemma built_control (p : Page) (k : jsstring) (config : FieldConfig) :
  built p -> In (k, config) CONFIG_FIELDS ->
  exists c, Obj.getOwn (configControls p) k = Some c
            /\ controlMatches config c.
Proof.
  intros B H. pose proof (built_NoDup p B) as ND.
  destruct B as (_ & _ & _ & F).
  destruct (Forall2_In_left _ _ _ _ F H) as ([k' c] & Hin & E & M).
  simpl in *. subst k'.
  exists c. split; [apply getOwn_In; assumption | exact M].
Qed.

Lemma getOwn_map_mergedControl (entries : list (jsstring * JSValue))
  (cs : list (jsstring * Control)) (k : jsstring) :
  Obj.getOwn (map (mergedControl entries) cs) k
  = option_map (fun c => snd (mergedControl entries (k, c)))
               (Obj.getOwn cs k).
Proof.
  induction cs as [|[k' c'] cs IH]; simpl; [reflexivity|].
  destruct (JsString.eqb k' k) eqn:E; [|exact IH].
  apply eqb_eq in E; subst. reflexivity.
Qed.

Lemma written_setControlValue (config : FieldConfig) (c : Control)
  (s : jsstring) :
  controlMatches config c ->
  controlValue (setControlValue c s) = written config s.
Proof.
  destruct config, c; simpl; try contradiction; [|reflexivity].
  intros ->. reflexivity.
Qed.

(** C1 (amended). On a built page whose [Object.prototype] is clean, for a
    parsed response with no string under the key [__proto__]: the merge ends
    without error; an attribute whose registry key carries a string in the
    response is assigned it through its control -- an enumerated attribute
    then holds the string when it is empty or one of its options and the
    empty string otherwise, a free-text attribute holds it without its line
    breaks; every other attribute keeps its value; the prompt, the button, the
    displayed JSON and [Object.prototype] are as before. *)
Theorem merge_writes_registered_strings (p : Page)
  (entries : list (jsstring * JSValue)) :
  built p -> objectPrototypeValue p = None ->
  NoDup (Obj.keys entries) ->
  (forall s, ~ In (js "__proto__", JString s) entries) ->
  let r := mergeEntries entries p in
  snd r = None
  /\ promptInput (fst r) = promptInput p
  /\ enhanceButton (fst r) = enhanceButton p
  /\ jsonOutput (fst r) = jsonOutput p
  /\ objectPrototypeValue (fst r) = None
  /\ Obj.keys (configControls (fst r)) = registryKeys
  /\ forall k config,
       In (k, config) CONFIG_FIELDS ->
       formValue (fst r) k
       = match Obj.getOwn entries k with
         | Some (JString s) => Some (written config s)
         | _ => formValue p k
         end.
Proof.
  intros B OP NDe NP r. subst r.
  rewrite (mergeEntries_exact entries p (built_NoDup p B) OP NDe NP).
  cbn [fst snd]. repeat split; try assumption.
  - cbn [configControls withConfigControls]. unfold Obj.keys.
    rewrite map_map. cbn [mergedControl fst]. apply (built_keys p B).
  - intros k config H.
    destruct (built_control p k config B H) as (c & G & M).
    unfold formValue. cbn [configControls withConfigControls].
    rewrite getOwn_map_mergedControl, G. cbn [option_map mergedControl fst snd].
    destruct (Obj.getOwn entries k) as [[| | |s| |]|]; try reflexivity.
    rewrite (written_setControlValue config c s M). reflexivity.
Qed.

Lemma merge_writes_registered_strings_witness :
  built (typed "a cat")
  /\ objectPrototypeValue (typed "a cat") = None
  /\ NoDup (Obj.keys exampleResponse)
  /\ (forall s, ~ In (js "__proto__", JString s) exampleResponse)
  /\ snd (mergeEntries exampleResponse (typed "a cat")) = None
  /\ formState (fst (mergeEntries exampleResponse (typed "a cat")))
     = (Some (js "a cat"),
        [(js "cameraMovement", js "Pan"); (js "lightingMode", []);
         (js "mood", []); (js "colorPalette", []); (js "subjectFocus", []);
         (js "environmentalDetails", []); (js "background", [])]).
Proof.
  assert (H1 : built (typed "a cat")) by built_by_evaluation.
  assert (H2 : objectPrototypeValue (typed "a cat") = None) by reflexivity.
  assert (H3 : NoDup (Obj.keys exampleResponse)) by distinct_keys.
  assert (H4 : forall s, ~ In (js "__proto__", JString s) exampleResponse).
  { intros s H. vm_compute in H. intuition discriminate. }
  split; [exact H1 | split; [exact H2 | split; [exact H3 | split; [exact H4|]]]].
  split.
  - exact (proj1 (merge_writes_registered_strings (typed "a cat")
                    exampleResponse H1 H2 H3 H4)).
  - vm_compute. reflexivity.
Defined.

(** C1 as stated fails: the user has chosen the mood Epic; the response
    suggests the mood Happy, a string under a registry key; after the merge
    FormState holds neither: the attribute is empty. *)
Lemma merge_does_not_store_unlisted_option :
  let p := applyEdit (typed "a cat") (EditControl (js "mood") (js "Epic")) in
  let p' := fst (mergeEntries [(js "mood", JString (js "Happy"))] p) in
  In (js "mood") registryKeys
  /\ formValue p (js "mood") = Some (js "Epic")
  /\ formValue p' (js "mood") = Some []
  /\ formValue p' (js "mood") <> Some (js "Happy").
Proof.
  vm_compute. repeat split; try discriminate. tauto.
Qed.

(** The same on a free-text attribute: line breaks of the response do not
    reach FormState. *)
Example merge_strips_line_breaks :
  formValue
    (fst (mergeEntries
            [(js "background", JString (js "fog" ++ [0xA%N] ++ js "rain"))]
            (typed "a cat")))
    (js "background")
  = Some (js "fograin").
Proof. reflexivity. Qed.

(** ** Reading the OutputDocument back *)

Lemma getOwn_app {A : Type} (a b : list (jsstring * A)) (k : jsstring) :
  Obj.getOwn (a ++ b) k
  = match Obj.getOwn a k with
    | Some v => Some v
    | None => Obj.getOwn b k
    end.
Proof.
  induction a as [|[k' v'] a IH]; simpl; [reflexivity|].
  destruct (JsString.eqb k' k); [reflexivity | exact IH].
Qed.

Lemma flat_map_map_ext_in {A B C : Type} (g : B -> list C) (h : A -> B)
  (g' : A -> list C) (l : list A) :
  (forall a, In a l -> g (h a) = g' a) ->
  flat_map g (map h l) = flat_map g' l.
Proof.
  induction l as [|a l IH]; intros H; simpl; [reflexivity|].
  rewrite (H a) by (left; reflexivity).
  rewrite IH by (intros; apply H; right; assumption). reflexivity.
Qed.

Lemma controlValue_holding (c : Control) (v : jsstring) :
  controlValue (holding c v) = v.
Proof. destruct c; reflexivity. Qed.

Lemma controlMatches_holding (config : FieldConfig) (c : Control)
  (v : jsstring) :
  controlMatches config c -> controlMatches config (holding c v).
Proof. destruct config, c; simpl; auto. Qed.

Lemma inheritedPart_getOwn (p : Page) (k : jsstring) :
  k <> js "value" -> Obj.getOwn (inheritedPart p) k = None.
Proof.
  intros H. unfold inheritedPart.
  destruct (objectPrototypeValue p) as [s|]; [|reflexivity].
  destruct (truthy (trim s)); [|reflexivity].
  cbn [Obj.getOwn]. assert (E : JsString.eqb (js "value") k = false)
    by (apply eqb_neq; congruence).
  rewrite E. reflexivity.
Qed.

Lemma promptPart_getOwn (p : Page) (k : jsstring) :
  k <> PROMPT -> Obj.getOwn (promptPart p) k = None.
Proof.
  intros H. apply getOwn_None. intros Hin. apply H.
  apply (promptPart_keys p). exact Hin.
Qed.

(** What the document gives back for a control of the page. *)
Lemma recall_attribute (p : Page) (k : jsstring) (c : Control) :
  built p -> In (k, c) (configControls p) ->
  recall (buildOutput p) k
  = if truthy (trim (controlValue c)) then trim (controlValue c) else [].
Proof.
  intros B H. pose proof (built_NoDup p B) as ND.
  assert (K : In k registryKeys).
  { rewrite <- (built_keys p B). change k with (fst (k, c)).
    apply in_map. exact H. }
  assert (K1 : k <> PROMPT)
    by (intros ->; exact (prompt_not_registry K)).
  assert (K2 : k <> js "value")
    by (intros ->; exact (value_not_registry K)).
  unfold recall. rewrite (buildOutput_parts p B), !getOwn_app.
  rewrite (promptPart_getOwn p k K1).
  assert (G : Obj.getOwn (attributePart p) k
              = if truthy (trim (controlValue c))
                then Some (trim (controlValue c)) else None)
    by (apply attributePart_getOwn; assumption).
  rewrite G.
  destruct (truthy (trim (controlValue c))); [reflexivity|].
  rewrite (inheritedPart_getOwn p k K2). reflexivity.
Qed.

(** What the document gives back for the prompt. *)
Lemma recall_prompt (p : Page) (v : jsstring) :
  built p -> promptInput p = Some v ->
  recall (buildOutput p) PROMPT = if truthy (trim v) then trim v else [].
Proof.
  intros B Hv. unfold recall. rewrite (buildOutput_parts p B), getOwn_app.
  unfold promptPart at 1. rewrite Hv.
  destruct (truthy (trim v)) eqn:T.
  - cbn [Obj.getOwn]. rewrite eqb_refl. reflexivity.
  - cbn [Obj.getOwn].
    assert (G : Obj.getOwn (attributePart p ++ inheritedPart p) PROMPT = None).
    { apply getOwn_None. unfold Obj.keys. rewrite map_app, in_app_iff.
      intros [H|H].
      - apply prompt_not_registry. rewrite <- (built_keys p B).
        apply attributePart_keys_sub. exact H.
      - unfold inheritedPart in H.
        destruct (objectPrototypeValue p) as [s|]; [|contradiction].
        destruct (truthy (trim s)); [|contradiction].
        destruct H as [H|[]]. vm_compute in H. discriminate. }
    rewrite G. reflexivity.
Qed.

Lemma project_roundtrip_built (p : Page) :
  built p -> built (project_roundtrip p).
Proof.
  intros (B1 & B2 & B3 & F). unfold project_roundtrip. repeat split; simpl.
  - destruct (promptInput p); [discriminate | exact B1].
  - exact B2.
  - exact B3.
  - apply Forall2_map_right; [|exact F].
    intros [k config] [k' c] [E M]. simpl in *. split; [exact E|].
    apply controlMatches_holding. exact M.
Qed.

(** C9. Projecting is idempotent: when the OutputDocument of a built page is
    read back into the form (each key of FormState taking the value the
    document has for it, the empty string when the document lacks the key)
    and projected again, the document is the same. *)
Theorem project_idempotent (p : Page) :
  built p -> buildOutput (project_roundtrip p) = buildOutput p.
Proof.
  intros B. pose proof (project_roundtrip_built p B) as B'.
  rewrite (buildOutput_parts _ B'), (buildOutput_parts p B).
  f_equal; [|f_equal].
  - unfold promptPart at 1. unfold project_roundtrip.
    cbn [promptInput withConfigControls withPromptInput].
    unfold promptPart. destruct (promptInput p) as [v|] eqn:Hv; [|reflexivity].
    rewrite (recall_prompt p v B Hv).
    destruct (truthy (trim v)) eqn:T.
    + rewrite trim_idempotent, T. reflexivity.
    + reflexivity.
  - unfold attributePart, project_roundtrip.
    cbn [configControls withConfigControls].
    apply flat_map_map_ext_in. intros [k c] H. cbn [fst snd].
    rewrite controlValue_holding, (recall_attribute p k c B H).
    destruct (truthy (trim (controlValue c))) eqn:T.
    + cbv zeta. rewrite trim_idempotent, T. reflexivity.
    + reflexivity.
Qed.

Lemma project_idempotent_witness :
  built (fst (mergeEntries exampleResponse (typed "  A lone astronaut  ")))
  /\ buildOutput
       (project_roundtrip
          (fst (mergeEntries exampleResponse (typed "  A lone astronaut  "))))
     = buildOutput
         (fst (mergeEntries exampleResponse (typed "  A lone astronaut  "))).
Proof.
  assert (B : built (fst (mergeEntries exampleResponse
                            (typed "  A lone astronaut  "))))
    by built_by_evaluation.
  split; [exact B | exact (project_idempotent _ B)].
Defined.

(** ** The schema sent with the request *)

Lemma fold_set_distinct {A : Type} (es acc : list (jsstring * A)) :
  NoDup (Obj.keys es) ->
  (forall k, In k (Obj.keys es) -> ~ In k (Obj.keys acc)) ->
  fold_left (fun o kv => Obj.set o (fst kv) (snd kv)) es acc = acc ++ es.
Proof.
  revert acc. induction es as [|[k v] es IH]; intros acc ND Fresh; simpl.
  - rewrite app_nil_r. reflexivity.
  - inversion ND as [|? ? Hn ND']; subst.
    rewrite set_fresh by (apply Fresh; left; reflexivity).
    rewrite IH; [rewrite <- app_assoc; reflexivity | assumption |].
    intros k' Hk'. unfold Obj.keys. rewrite map_app, in_app_iff. simpl.
    intros [H | [H | []]].
    + apply (Fresh k'); [right; assumption | exact H].
    + subst. contradiction.
Qed.

Lemma fromEntries_distinct {A : Type} (es : list (jsstring * A)) :
  NoDup (Obj.keys es) -> Obj.fromEntries es = es.
Proof.
  intros ND. unfold Obj.fromEntries.
  rewrite fold_set_distinct; [reflexivity | assumption | intros k _ []].
Qed.

Lemma buildSchema_properties (fields : list (jsstring * FieldConfig)) :
  NoDup (Obj.keys fields) ->
  properties (buildSchema fields)
  = map (fun kc => (fst kc, {| propertyType := STRING;
                               description := describe (snd kc) |})) fields.
Proof.
  intros ND. unfold buildSchema. cbn [properties].
  apply fromEntries_distinct. unfold Obj.keys. rewrite map_map. exact ND.
Qed.

(** C7. The schema of the request is an object schema whose properties are
    the registry keys, in registry order, the prompt key not among them;
    every property has the string type; the description of an enumerated
    attribute ends with its options in their order, the description of a
    free-text attribute carries no option list. *)
Theorem schema_mirrors_registry :
  let schema := buildSchema CONFIG_FIELDS in
  schemaType schema = OBJECT
  /\ Obj.keys (properties schema) = registryKeys
  /\ ~ In PROMPT (Obj.keys (properties schema))
  /\ (forall k ps, In (k, ps) (properties schema) -> propertyType ps = STRING)
  /\ (forall k l options,
        In (k, SelectField l options) CONFIG_FIELDS ->
        exists ps,
          Obj.getOwn (properties schema) k = Some ps
          /\ description ps
             = js "Suggest a value for " ++ l ++ js ". "
               ++ js "Choose one of: " ++ join (js ", ") options)
  /\ (forall k l placeholder,
        In (k, TextField l placeholder) CONFIG_FIELDS ->
        exists ps,
          Obj.getOwn (properties schema) k = Some ps
          /\ description ps = js "Suggest a value for " ++ l ++ js ". ")
  /\ (forall prompt, exists model contents mime,
        requestFor prompt = GenerateContent model contents mime schema).
Proof.
  intros schema. subst schema.
  pose proof (buildSchema_properties CONFIG_FIELDS registryKeys_NoDup) as P.
  assert (K : Obj.keys (properties (buildSchema CONFIG_FIELDS)) = registryKeys).
  { rewrite P. unfold Obj.keys. rewrite map_map. reflexivity. }
  assert (G : forall k config,
             In (k, config) CONFIG_FIELDS ->
             Obj.getOwn (properties (buildSchema CONFIG_FIELDS)) k
             = Some {| propertyType := STRING;
                       description := describe config |}).
  { intros k config H. apply getOwn_In.
    - rewrite K. exact registryKeys_NoDup.
    - rewrite P. apply in_map_iff. exists (k, config). split; [reflexivity | exact H]. }
  split; [reflexivity|]. split; [exact K|].
  split; [rewrite K; exact prompt_not_registry|].
  split; [|split; [|split]].
  - intros k ps H. rewrite P in H. apply in_map_iff in H.
    destruct H as (kc & E & _). inversion E. reflexivity.
  - intros k l options H. eexists. split; [exact (G _ _ H)|].
    cbn [description]. unfold describe, optionList. reflexivity.
  - intros k l placeholder H. eexists. split; [exact (G _ _ H)|].
    cbn [description]. unfold describe. cbn [label].
    rewrite app_nil_r. reflexivity.
  - intros prompt. unfold requestFor. do 3 eexists. reflexivity.
Qed.

(** ** The batch stub *)



Lemma mapUntilThrow_Some {A : Type} (mapfn : N -> option A)
  (indices : list nat) :
  forall l,
    mapUntilThrow mapfn indices = Some l ->
    Forall2 (fun i x => mapfn (N.of_nat i) = Some x) indices l.
Proof.
  induction indices as [|i rest IH]; intros l H; cbn [mapUntilThrow] in H.
  - inversion H. constructor.
  - destruct (mapfn (N.of_nat i)) as [a|] eqn:Ei; [|discriminate].
    destruct (mapUntilThrow mapfn rest) as [l'|]; [|discriminate].
    inversion H; subst. constructor; [exact Ei | apply IH; reflexivity].
Qed.


(** The text of one element, seen from the outcome of the callback. *)
Lemma prompt_element (formState : BatchFormState) (i : N) (x : jsstring) :
  match keywordText formState i with
  | Some text =>
      Some (js "Generated prompt " ++ numberToString (i + 1)
            ++ js " for " ++ text)
  | None => None
  end = Some x ->
  exists text,
    keywordText formState i = Some text
    /\ x = js "Generated prompt " ++ numberToString (i + 1) ++ js " for "
           ++ text.
Proof.
  destruct (keywordText formState i) as [text|]; [|discriminate].
  intros H. inversion H. exists text. split; reflexivity.
Qed.




Example generatePromptsBatch_three :
  generatePromptsBatch 134217727 (Holding (KString (js "cat"))) 3
  = Fulfilled
      [js "Generated prompt 1 for cat"; js "Generated prompt 2 for cat";
       js "Generated prompt 3 for cat"].
Proof. reflexivity. Qed.

Example generatePromptsBatch_missing_keyword :
  generatePromptsBatch 134217727 (Holding KUndefined) 2
  = Fulfilled
      [js "Generated prompt 1 for undefined";
       js "Generated prompt 2 for undefined"]
  /\ generatePromptsBatch 134217727 Nullish 0 = Fulfilled []
  /\ generatePromptsBatch 134217727 Nullish 1 = RejectedByCallback.
Proof. repeat split. Qed.

(** ** The inherited key *)

(** C3, at the failing input. A fresh page, the prompt "a", one enhancement
    whose response text is the JSON object with the single member
    [__proto__] : "x". FormState is what it was, and the OutputDocument the
    handler then displays has the key [value], which is neither the prompt
    key nor a registry key. *)
Theorem project_reports_inherited_key :
  built afterProtoResponse
  /\ formState afterProtoResponse = formState (typed "a")
  /\ objectPrototypeValue afterProtoResponse = Some (js "x")
  /\ buildOutput afterProtoResponse = [(PROMPT, js "a"); (js "value", js "x")]
  /\ jsonOutput afterProtoResponse
     = Some (JSON_stringify [(PROMPT, js "a"); (js "value", js "x")])
  /\ ~ documentKey (js "value").
Proof.
  split; [exact (handleEnhanceClick_built (typed "a") [] _ (typed_built "a"))|].
  split; [reflexivity|]. split; [reflexivity|]. split; [reflexivity|].
  split; [reflexivity|].
  intros [E|E]; [vm_compute in E; discriminate | exact (value_not_registry E)].
Qed.

(** C4, at the failing input. The page of C3 with two attributes chosen:
    prompt "a", camera movement Drone, mood Epic, then one enhancement whose
    response text is the JSON object with the single member [__proto__] :
    "x". The order the claim gives is prompt, cameraMovement, mood; the key
    list of the OutputDocument has a fourth key, [value], after them. *)
Theorem project_key_list_gains_inherited_key :
  built droneEpicAfterProtoResponse
  /\ formState droneEpicAfterProtoResponse
     = formState (applyEdit droneEpic (EditPrompt (js "a")))
  /\ expectedKeys droneEpicAfterProtoResponse
     = [PROMPT; js "cameraMovement"; js "mood"]
  /\ Obj.keys (buildOutput droneEpicAfterProtoResponse)
     = [PROMPT; js "cameraMovement"; js "mood"; js "value"]
  /\ Obj.keys (buildOutput droneEpicAfterProtoResponse)
     <> expectedKeys droneEpicAfterProtoResponse.
Proof.
  split.
  - apply handleEnhanceClick_built, applyEdit_built.
    unfold droneEpic. apply applyEdits_built. exact main_built.
  - split; [reflexivity|]. split; [reflexivity|]. split; [reflexivity|].
    vm_compute. discriminate.
Qed.

(** ** The scenarios of the specification *)

Example scenario_prompt_only :
  buildOutput (typed "A lone astronaut on Mars")
  = [(PROMPT, js "A lone astronaut on Mars")].
Proof. reflexivity. Qed.

Example scenario_attributes_only :
  buildOutput droneEpic
  = [(js "cameraMovement", js "Drone"); (js "mood", js "Epic")].
Proof. reflexivity. Qed.

Example scenario_displayed_text :
  jsonOutput droneEpic
  = Some (js "{" ++ [0xA%N]
          ++ js "  " ++ quoted "cameraMovement" ++ js ": " ++ quoted "Drone"
          ++ js "," ++ [0xA%N]
          ++ js "  " ++ quoted "mood" ++ js ": " ++ quoted "Epic" ++ [0xA%N]
          ++ js "}").
Proof. reflexivity. Qed.

(** The user rewrites the prompt while the request is in flight; the response
    sets the lighting mode: both are in the final form. *)
Example scenario_edit_during_request :
  formState
    (fst (handleEnhanceClick (typed "a") [EditPrompt (js "b")]
            (Responded
               (Some (JObject [(js "lightingMode", JString (js "Cinematic"));
                               (PROMPT, JString (js "c"))])))))
  = (Some (js "b"),
     [(js "cameraMovement", []); (js "lightingMode", js "Cinematic");
      (js "mood", []); (js "colorPalette", []); (js "subjectFocus", []);
      (js "environmentalDetails", []); (js "background", [])]).
Proof. reflexivity. Qed.

(** A response that is [null] parses, and the loop header then throws: the
    failure path, nothing written. *)
Example scenario_null_response :
  handleEnhanceClick (typed "a") [] (Responded (Some JNull))
  = (typed "a",
     [requestFor (js "a"); ConsoleError FAILURE_LOG TypeError;
      Alert FAILURE_NOTICE]).
Proof. reflexivity. Qed.

(** After a member [__proto__] the lookup of the key [value] finds a string,
    the assignment to it throws, and the members that follow are not merged:
    the camera movement is set, the mood is not. *)
Example merge_stops_at_inherited_string :
  snd (mergeEntries trippingResponse (typed "a")) = Some TypeError
  /\ formValue (fst (mergeEntries trippingResponse (typed "a")))
       (js "cameraMovement") = Some (js "Pan")
  /\ formValue (fst (mergeEntries trippingResponse (typed "a"))) (js "mood")
     = Some [].
Proof. repeat split. Qed.

(* ================================================================== *)
(** * Sessions: what every page of a session satisfies *)

Lemma stripNewlines_idempotent (s : jsstring) :
  stripNewlines (stripNewlines s) = stripNewlines s.
Proof.
  unfold stripNewlines. induction s as [|c r IH]; [reflexivity|].
  simpl. destruct (negb (N.eqb c 10 || N.eqb c 13)) eqn:E; [|exact IH].
  simpl. rewrite E, IH. reflexivity.
Qed.

Lemma validControl_set (c : Control) (s : jsstring) :
  validControl (setControlValue c s).
Proof.
  destruct c as [ovs v|v]; simpl.
  - destruct (existsb (JsString.eqb s) ovs) eqn:E; [left | right; reflexivity].
    apply existsb_eqb_In. exact E.
  - apply stripNewlines_idempotent.
Qed.

Lemma set_Forall {A : Type} (P : A -> Prop) (o : list (jsstring * A))
  (k : jsstring) (v : A) :
  Forall (fun kv => P (snd kv)) o -> P v ->
  Forall (fun kv => P (snd kv)) (Obj.set o k v).
Proof.
  intros F Hv. induction F as [|[k' v'] o Hx F IH]; simpl.
  - constructor; [exact Hv | constructor].
  - destruct (JsString.eqb k' k); constructor; assumption.
Qed.

(** Every step of a session is made of five elementary updates of the page.
    A property that holds at the start and survives each of them holds on
    every page of the session. *)
Section Invariant.

Variable allowed : ServiceOutcome -> Prop.
Variable Q : Page -> Prop.

Hypothesis Q_main : Q (main true).
Hypothesis Q_control :
  forall p key c s,
    Q p -> Obj.getOwn (configControls p) key = Some c ->
    Q (withConfigControls p
         (Obj.set (configControls p) key (setControlValue c s))).
Hypothesis Q_prototype :
  forall p s, Q p -> Q (withObjectPrototypeValue p (Some s)).
Hypothesis Q_prompt : forall p v, Q p -> Q (withPromptInput p (Some v)).
Hypothesis Q_json : forall p x, Q p -> Q (withJsonOutput p (Some x)).
Hypothesis Q_button : forall p b, Q p -> Q (withEnhanceButton p (Some b)).

Lemma generate_keeps (p : Page) : Q p -> Q (generateAndDisplayJSON p).
Proof.
  intros H. unfold generateAndDisplayJSON.
  destruct (jsonOutput p); [apply Q_json|]; exact H.
Qed.

Lemma applyEdit_keeps (p : Page) (e : UserEdit) : Q p -> Q (applyEdit p e).
Proof.
  intros H. unfold applyEdit. apply generate_keeps. destruct e as [v|key v].
  - destruct (promptInput p); [apply Q_prompt|]; exact H.
  - destruct (Obj.getOwn (configControls p) key) eqn:G; [|exact H].
    apply Q_control; assumption.
Qed.

Lemma applyEdits_keeps (edits : list UserEdit) (p : Page) :
  Q p -> Q (applyEdits edits p).
Proof.
  revert p. induction edits as [|e es IH]; intros p H; simpl; [exact H|].
  apply IH, applyEdit_keeps, H.
Qed.

Lemma enhanceTry_keeps (p : Page) (o : ServiceOutcome) :
  Q p -> Q (fst (enhanceTry p o)).
Proof.
  intros H. destruct o as [|[data|]]; simpl; try exact H.
  destruct (Object_entries data) as [entries|]; [|exact H].
  pose proof (mergeEntries_invariant Q Q_control Q_prototype entries p H) as M.
  destruct (mergeEntries entries p) as [q [e|]]; exact M.
Qed.

Lemma enhanceFinally_keeps (p : Page) : Q p -> Q (enhanceFinally p).
Proof.
  intros H. apply generate_keeps in H. unfold enhanceFinally.
  destruct (enhanceButton (generateAndDisplayJSON p)) eqn:E.
  - apply Q_button. exact H.
  - replace (withEnhanceButton (generateAndDisplayJSON p) None)
      with (generateAndDisplayJSON p); [exact H|].
    destruct (generateAndDisplayJSON p); simpl in *. subst. reflexivity.
Qed.

Lemma handleEnhanceClick_keeps (p : Page) (midflight : list UserEdit)
  (o : ServiceOutcome) : Q p -> Q (fst (handleEnhanceClick p midflight o)).
Proof.
  intros H. unfold handleEnhanceClick, enhanceBegin.
  destruct (promptInput p) as [v|]; [|exact H].
  destruct (enhanceButton p) as [b|]; [|exact H].
  cbv zeta. destruct (negb (truthy (trim v))); [exact H|].
  rewrite (surjective_pairing (enhanceResume _ o)). cbn [fst].
  rewrite enhanceResume_fst.
  apply enhanceFinally_keeps, enhanceTry_keeps, applyEdits_keeps, Q_button, H.
Qed.

Lemma session_invariant (p : Page) : reachableVia allowed p -> Q p.
Proof.
  intros R. induction R as [|p e R IH|p midflight o R IH A].
  - exact Q_main.
  - apply applyEdit_keeps, IH.
  - apply handleEnhanceClick_keeps, IH.
Qed.

End Invariant.

Lemma reachable_built (allowed : ServiceOutcome -> Prop) (p : Page) :
  reachableVia allowed p -> built p.
Proof.
  intros R. induction R as [|p e R IH|p midflight o R IH A].
  - exact main_built.
  - apply applyEdit_built, IH.
  - apply handleEnhanceClick_built, IH.
Qed.

Lemma reachable_validForm (allowed : ServiceOutcome -> Prop) (p : Page) :
  reachableVia allowed p -> validForm p.
Proof.
  apply (session_invariant allowed validForm); unfold validForm; simpl; auto.
  - vm_compute. repeat constructor.
  - intros q key c s F _. apply set_Forall; [exact F | apply validControl_set].
Qed.

Lemma generate_synced (p : Page) :
  jsonOutput p <> None -> synced (generateAndDisplayJSON p).
Proof.
  intros H. unfold synced. rewrite (generate_jsonOutput p H). do 2 f_equal.
  apply buildOutput_ext; symmetry.
  - apply generate_promptInput.
  - apply generate_configControls.
  - apply generate_objectPrototypeValue.
Qed.

Lemma applyEdit_synced (p : Page) (e : UserEdit) :
  jsonOutput p <> None -> synced (applyEdit p e).
Proof.
  intros H. unfold applyEdit. apply generate_synced. destruct e as [v|key v].
  - destruct (promptInput p); exact H.
  - destruct (Obj.getOwn (configControls p) key); exact H.
Qed.

Lemma enhanceFinally_synced (p : Page) :
  jsonOutput p <> None -> synced (enhanceFinally p).
Proof.
  intros H. pose proof (generate_synced p H) as S. unfold synced in *.
  unfold enhanceFinally. cbn [jsonOutput withEnhanceButton]. rewrite S.
  reflexivity.
Qed.

Lemma handleEnhanceClick_synced (p : Page) (midflight : list UserEdit)
  (o : ServiceOutcome) :
  jsonOutput p <> None -> synced p ->
  synced (fst (handleEnhanceClick p midflight o)).
Proof.
  intros Hj S. unfold handleEnhanceClick, enhanceBegin.
  destruct (promptInput p) as [v|]; [|exact S].
  destruct (enhanceButton p) as [b|]; [|exact S].
  cbv zeta. destruct (negb (truthy (trim v))); [exact S|].
  rewrite (surjective_pairing (enhanceResume _ o)). cbn [fst].
  rewrite enhanceResume_fst. apply enhanceFinally_synced.
  rewrite enhanceTry_jsonOutput. apply applyEdits_jsonOutput. exact Hj.
Qed.

Lemma reachable_synced (allowed : ServiceOutcome -> Prop) (p : Page) :
  reachableVia allowed p -> synced p.
Proof.
  intros R. induction R as [|p e R IH|p midflight o R IH A].
  - reflexivity.
  - apply applyEdit_synced.
    destruct (reachable_built allowed p R) as (_ & _ & J & _). exact J.
  - apply handleEnhanceClick_synced; [|exact IH].
    destruct (reachable_built allowed p R) as (_ & _ & J & _). exact J.
Qed.

Lemma mergeEntries_clean (entries : list (jsstring * JSValue)) :
  forall p : Page,
    objectPrototypeValue p = None ->
    (forall s, ~ In (js "__proto__", JString s) entries) ->
    objectPrototypeValue (fst (mergeEntries entries p)) = None.
Proof.
  induction entries as [|[key value] rest IH]; intros p OP NP; [exact OP|].
  assert (NPr : forall s, ~ In (js "__proto__", JString s) rest).
  { intros s H. apply (NP s). right. exact H. }
  destruct value as [| | |s| |]; cbn [mergeEntries]; try (apply IH; assumption).
  unfold lookupControl.
  destruct (Obj.getOwn (configControls p) key) as [c|] eqn:G.
  - cbn [looksTruthy assignValue]. apply IH; [exact OP | exact NPr].
  - rewrite OP. destruct (JsString.eqb key (js "value")).
    + cbn [looksTruthy]. apply IH; assumption.
    + destruct (JsString.eqb key (js "__proto__")) eqn:E.
      * apply eqb_eq in E; subst. exfalso. apply (NP s). left. reflexivity.
      * destruct (existsb _ _); cbn [looksTruthy assignValue];
          apply IH; assumption.
Qed.

Lemma applyEdit_objectPrototypeValue (p : Page) (e : UserEdit) :
  objectPrototypeValue (applyEdit p e) = objectPrototypeValue p.
Proof.
  unfold applyEdit. rewrite generate_objectPrototypeValue. destruct e.
  - destruct (promptInput p); reflexivity.
  - destruct (Obj.getOwn (configControls p) key); reflexivity.
Qed.

Lemma applyEdits_objectPrototypeValue (edits : list UserEdit) (p : Page) :
  objectPrototypeValue (applyEdits edits p) = objectPrototypeValue p.
Proof.
  revert p. induction edits as [|e es IH]; intros p; simpl; [reflexivity|].
  rewrite IH. apply applyEdit_objectPrototypeValue.
Qed.

Lemma handleEnhanceClick_clean (p : Page) (midflight : list UserEdit)
  (o : ServiceOutcome) :
  objectPrototypeValue p = None -> protoFree o ->
  objectPrototypeValue (fst (handleEnhanceClick p midflight o)) = None.
Proof.
  intros OP PF. unfold handleEnhanceClick, enhanceBegin.
  destruct (promptInput p) as [v|]; [|exact OP].
  destruct (enhanceButton p) as [b|]; [|exact OP].
  cbv zeta. destruct (negb (truthy (trim v))); [exact OP|].
  rewrite (surjective_pairing (enhanceResume _ o)). cbn [fst].
  rewrite enhanceResume_fst. unfold enhanceFinally.
  cbn [objectPrototypeValue withEnhanceButton].
  rewrite generate_objectPrototypeValue.
  set (q := applyEdits midflight _).
  assert (Q0 : objectPrototypeValue q = None).
  { subst q. rewrite applyEdits_objectPrototypeValue. exact OP. }
  destruct o as [|[data|]]; cbn [enhanceTry fst]; try exact Q0.
  unfold protoFree in PF.
  destruct (Object_entries data) as [entries|]; [|exact Q0].
  pose proof (mergeEntries_clean entries q Q0 PF) as M.
  destruct (mergeEntries entries q) as [q' [e|]]; exact M.
Qed.

Lemma reachable_clean (p : Page) :
  reachableVia protoFree p -> objectPrototypeValue p = None.
Proof.
  intros R. induction R as [|p e R IH|p midflight o R IH A].
  - reflexivity.
  - rewrite applyEdit_objectPrototypeValue. exact IH.
  - apply handleEnhanceClick_clean; assumption.
Qed.

Lemma clean_output_keys (p : Page) :
  built p -> objectPrototypeValue p = None ->
  Obj.keys (buildOutput p) = expectedKeys p.
Proof.
  intros B OP. rewrite (buildOutput_parts p B). unfold Obj.keys, expectedKeys.
  rewrite !map_app. unfold inheritedPart. rewrite OP. cbn [map].
  rewrite app_nil_r. f_equal.
  - unfold promptPart. destruct (promptInput p) as [v|]; [|reflexivity].
    destruct (truthy (trim v)); reflexivity.
  - change (map fst (attributePart p)) with (Obj.keys (attributePart p)).
    rewrite (attributePart_keys p (built_NoDup p B)), (built_keys p B).
    reflexivity.
Qed.

Lemma options_are_trimmed (k l : jsstring) (options : list jsstring)
  (o : jsstring) :
  In (k, SelectField l options) CONFIG_FIELDS -> In o options -> trim o = o.
Proof.
  intros H Ho.
  assert (C : forallb
                (fun kc =>
                   match snd kc with
                   | SelectField _ opts =>
                       forallb (fun x => JsString.eqb (trim x) x) opts
                   | TextField _ _ => true
                   end) CONFIG_FIELDS = true) by reflexivity.
  rewrite forallb_forall in C. specialize (C _ H). cbn [snd] in C.
  rewrite forallb_forall in C. apply eqb_eq. apply C. exact Ho.
Qed.

Lemma attributePart_In (p : Page) (k v : jsstring) :
  In (k, v) (attributePart p) ->
  exists c, In (k, c) (configControls p)
            /\ v = trim (controlValue c) /\ truthy v = true.
Proof.
  unfold attributePart. intros H. apply in_flat_map in H.
  destruct H as ([k' c] & Hin & H). cbn [fst snd] in H.
  destruct (truthy (trim (controlValue c))) eqn:T; [|contradiction].
  destruct H as [H|[]]. inversion H; subst.
  exists c. split; [exact Hin | split; [reflexivity | exact T]].
Qed.

(** The page of the examples below: the user has typed a prompt, the service
    has answered with a mood outside the list and a background over two
    lines. *)
Lemma example_session :
  reachable
    (fst (handleEnhanceClick (typed "a cat") []
            (Responded
               (Some (JObject
                        [(js "mood", JString (js "Happy"));
                         (js "cameraMovement", JString (js "Drone"));
                         (js "background",
                          JString (js "fog" ++ [0xA%N] ++ js "rain"))]))))).
Proof.
  apply reach_click; [|exact I]. apply reach_edit. apply reach_main.
Defined.

(** X1. On every page of a session, whatever the service answered, each
    enumerated attribute holds the empty string or one of its registry
    options, and each free-text attribute holds a string without LF or CR. *)
Theorem session_form_values (p : Page) (k : jsstring) (config : FieldConfig) :
  reachable p -> In (k, config) CONFIG_FIELDS ->
  exists v,
    formValue p k = Some v
    /\ match config with
       | SelectField _ options => v = [] \/ In v options
       | TextField _ _ => Forall (fun c => c <> 0xA%N /\ c <> 0xD%N) v
       end.
Proof.
  intros R H. pose proof (reachable_built _ p R) as B.
  pose proof (reachable_validForm _ p R) as V.
  destruct (built_control p k config B H) as (c & G & M).
  exists (controlValue c). split; [unfold formValue; rewrite G; reflexivity|].
  unfold validForm in V. rewrite Forall_forall in V.
  specialize (V (k, c) (getOwn_Some_In _ _ _ G)). cbn [snd] in V.
  destruct config as [l options|l ph], c as [ovs x|x]; simpl in M;
    try contradiction; simpl in *.
  - subst ovs. destruct V as [[E|V]|V]; auto.
  - apply Forall_forall. intros u Hu. rewrite <- V in Hu.
    unfold stripNewlines in Hu. apply filter_In in Hu. destruct Hu as [_ Hu].
    apply negb_true_iff, orb_false_iff in Hu. destruct Hu as [U1 U2].
    apply N.eqb_neq in U1, U2. split; assumption.
Qed.

Lemma session_form_values_witness :
  exists v,
    formValue
      (fst (handleEnhanceClick (typed "a cat") []
              (Responded
                 (Some (JObject
                          [(js "mood", JString (js "Happy"));
                           (js "cameraMovement", JString (js "Drone"));
                           (js "background",
                            JString (js "fog" ++ [0xA%N] ++ js "rain"))])))))
      (js "mood") = Some v
    /\ (v = [] \/
        In v (map js ["Cheerful"; "Dramatic"; "Calm"; "Mysterious";
                      "Romantic"; "Tense"; "Nostalgic"; "Epic"]%string)).
Proof.
  refine (session_form_values _ (js "mood")
            (SelectField (js "Mood") _) example_session _).
  vm_compute. tauto.
Defined.

(** X2. On every page of a session, the value the OutputDocument gives an
    enumerated attribute is one of that attribute's registry options. *)
Theorem output_enum_values_are_options (p : Page) (k l v : jsstring)
  (options : list jsstring) :
  reachable p -> In (k, SelectField l options) CONFIG_FIELDS ->
  In (k, v) (buildOutput p) -> In v options.
Proof.
  intros R H Hin. pose proof (reachable_built _ p R) as B.
  pose proof (reachable_validForm _ p R) as V.
  assert (K : In k registryKeys).
  { change k with (fst (k, SelectField l options)). apply in_map. exact H. }
  rewrite (buildOutput_parts p B), !in_app_iff in Hin.
  destruct Hin as [Hin | [Hin | Hin]].
  - exfalso. apply prompt_not_registry.
    rewrite <- (promptPart_keys p k); [exact K|].
    change k with (fst (k, v)). apply in_map. exact Hin.
  - apply attributePart_In in Hin. destruct Hin as (c & Hc & -> & T).
    destruct (built_control p k _ B H) as (c' & G & M).
    rewrite (getOwn_In _ _ _ (built_NoDup p B) Hc) in G.
    inversion G; subst c'.
    unfold validForm in V. rewrite Forall_forall in V.
    specialize (V (k, c) Hc). cbn [snd] in V.
    destruct c as [ovs x|x]; simpl in M; [|contradiction]. subst ovs.
    simpl in *. destruct V as [[E|V]|E]; try (subst x; discriminate).
    rewrite (options_are_trimmed k l options x H V). exact V.
  - exfalso. unfold inheritedPart in Hin.
    destruct (objectPrototypeValue p) as [s|]; [|contradiction].
    destruct (truthy (trim s)); [|contradiction].
    destruct Hin as [E|[]]. inversion E; subst.
    exact (value_not_registry K).
Qed.

Lemma output_enum_values_are_options_witness :
  In (js "Drone")
     (map js ["Static"; "Pan"; "Tilt"; "Zoom"; "Dolly"; "Handheld"; "Crane";
              "Steadicam"; "Drone"]%string).
Proof.
  refine (output_enum_values_are_options _ (js "cameraMovement")
            (js "Camera Movement") (js "Drone") _ example_session _ _).
  - vm_compute. tauto.
  - vm_compute. tauto.
Defined.

(** X3. On every page of a session the JSON region shows the serialized
    projection of the form as it stands: no edit and no enhancement, failed
    or not, leaves it behind. *)
Theorem session_display_in_sync (p : Page) :
  reachable p -> jsonOutput p = Some (JSON_stringify (buildOutput p)).
Proof. intros R. exact (reachable_synced _ p R). Qed.

Lemma session_display_in_sync_witness :
  jsonOutput
    (fst (handleEnhanceClick (typed "a cat") []
            (Responded
               (Some (JObject
                        [(js "mood", JString (js "Happy"));
                         (js "cameraMovement", JString (js "Drone"));
                         (js "background",
                          JString (js "fog" ++ [0xA%N] ++ js "rain"))])))))
  = Some (JSON_stringify
            (buildOutput
               (fst (handleEnhanceClick (typed "a cat") []
                       (Responded
                          (Some (JObject
                                   [(js "mood", JString (js "Happy"));
                                    (js "cameraMovement",
                                     JString (js "Drone"));
                                    (js "background",
                                     JString (js "fog" ++ [0xA%N]
                                              ++ js "rain"))]))))))).
Proof. exact (session_display_in_sync _ example_session). Defined.

(** X4. On every page of a session a click on the download button offers one
    file, named prompt.txt, of type text/plain, whose content is the
    serialized projection of the form as it stands. *)
Theorem download_delivers_projection (p : Page) :
  reachable p ->
  handleDownloadClick p
  = [SaveFile (js "prompt.txt") (js "text/plain")
       (JSON_stringify (buildOutput p))].
Proof.
  intros R. unfold handleDownloadClick.
  rewrite (reachable_synced _ p R). reflexivity.
Qed.

Lemma download_delivers_projection_witness :
  handleDownloadClick (typed "a cat")
  = [SaveFile (js "prompt.txt") (js "text/plain")
       (JSON_stringify (buildOutput (typed "a cat")))].
Proof.
  exact (download_delivers_projection _
           (reach_edit _ _ _ (reach_main _))).
Defined.

(** X5. On every page of a session a click on the copy button hands the
    clipboard exactly the serialized projection of the form as it stands,
    whatever the state of the button's label. *)
Theorem copy_delivers_projection (p : Page) (b : CopyButton) :
  reachable p ->
  handleCopyClick p (Some b)
  = [ClipboardWrite (JSON_stringify (buildOutput p))].
Proof.
  intros R. unfold handleCopyClick.
  rewrite (reachable_synced _ p R). reflexivity.
Qed.

Lemma copy_delivers_projection_witness :
  handleCopyClick (typed "a cat") (Some freshCopyButton)
  = [ClipboardWrite (JSON_stringify (buildOutput (typed "a cat")))].
Proof.
  exact (copy_delivers_projection _ freshCopyButton
           (reach_edit _ _ _ (reach_main _))).
Defined.

(** ** The label of the copy button *)

Lemma copies_pending (k : nat) (b : CopyButton) :
  Nat.iter (S k) (fun s => fst (copySettled true s)) b
  = {| copyLabel := COPIED_LABEL;
       restoreTimers :=
         restoreTimers b ++ copyLabel b :: repeat COPIED_LABEL k |}.
Proof.
  induction k as [|k IH].
  - reflexivity.
  - change (Nat.iter (S (S k)) (fun s => fst (copySettled true s)) b)
      with (fst (copySettled true
                   (Nat.iter (S k) (fun s => fst (copySettled true s)) b))).
    rewrite IH. unfold copySettled. cbn [fst copyLabel restoreTimers].
    f_equal. rewrite <- app_assoc. cbn [app]. do 2 f_equal.
    change (COPIED_LABEL :: repeat COPIED_LABEL k)
      with (repeat COPIED_LABEL (S k)).
    rewrite <- repeat_cons. reflexivity.
Qed.

Lemma last_cons_default {A : Type} (ts : list A) (u t : A) :
  last (u :: ts) t = last ts u.
Proof.
  revert u t. induction ts as [|j ts IH]; intros u t; [reflexivity|].
  change (last (u :: j :: ts) t) with (last (j :: ts) t).
  rewrite (IH j t), (IH j u). reflexivity.
Qed.

Lemma timers_fire (ts : list jsstring) :
  forall l t,
    Nat.iter (S (List.length ts)) timerFired
      {| copyLabel := l; restoreTimers := t :: ts |}
    = {| copyLabel := last ts t; restoreTimers := [] |}.
Proof.
  induction ts as [|u ts IH]; intros l t.
  - reflexivity.
  - rewrite Nat.iter_succ_r. unfold timerFired at 2.
    cbn [restoreTimers List.length]. rewrite IH.
    rewrite last_cons_default. reflexivity.
Qed.

(** X6. The label of the copy button, from a state with no timer pending.
    One successful copy followed by its timer puts the label back as it
    was. Two or more successful copies that all settle before the first timer
    fires leave, once every timer has fired, the label "Copied!" for good:
    the later copies saved the temporary label as the one to restore. *)
Theorem copy_label_after_burst (b : CopyButton) (k : nat) :
  restoreTimers b = [] ->
  let settled := Nat.iter (S k) (fun s => fst (copySettled true s)) b in
  let final := Nat.iter (S k) timerFired settled in
  restoreTimers final = []
  /\ copyLabel final = match k with O => copyLabel b | S _ => COPIED_LABEL end.
Proof.
  intros E settled final. subst final settled.
  rewrite copies_pending, E. cbn [app].
  replace (S k) with (S (List.length (repeat COPIED_LABEL k)))
    by (rewrite repeat_length; reflexivity).
  rewrite timers_fire. split; [reflexivity|].
  cbn [copyLabel]. destruct k as [|k]; [reflexivity|].
  cbn [repeat]. rewrite last_cons_default.
  clear. induction k as [|k IH]; [reflexivity|].
  cbn [repeat]. rewrite last_cons_default. exact IH.
Qed.

Lemma copy_label_after_burst_witness :
  restoreTimers freshCopyButton = []
  /\ copyLabel
       (Nat.iter 2 timerFired
          (Nat.iter 2 (fun s => fst (copySettled true s)) freshCopyButton))
     = COPIED_LABEL.
Proof.
  split; [reflexivity|].
  exact (proj2 (copy_label_after_burst freshCopyButton 1 eq_refl)).
Defined.

(** X7. In a session in which no response carries a string under the key
    [__proto__], [Object.prototype] stays as in a fresh page and the keys of
    the OutputDocument are exactly the prompt key (when the trimmed prompt is
    not empty) followed by the registry keys with a non-empty trimmed value,
    in registry order; none is outside the prompt and registry keys. *)
Theorem clean_session_output_keys (p : Page) :
  reachableVia protoFree p ->
  objectPrototypeValue p = None
  /\ Obj.keys (buildOutput p) = expectedKeys p
  /\ forall k, In k (Obj.keys (buildOutput p)) -> documentKey k.
Proof.
  intros R. pose proof (reachable_built _ p R) as B.
  pose proof (reachable_clean p R) as OP.
  split; [exact OP|]. split; [exact (clean_output_keys p B OP)|].
  intros k. apply project_keys_known; assumption.
Qed.

Lemma clean_session_output_keys_witness :
  Obj.keys
    (buildOutput
       (fst (handleEnhanceClick (typed "a cat") []
               (Responded (Some (JObject exampleResponse))))))
  = expectedKeys
      (fst (handleEnhanceClick (typed "a cat") []
              (Responded (Some (JObject exampleResponse))))).
Proof.
  refine (proj1 (proj2 (clean_session_output_keys _ _))).
  apply reach_click; [apply reach_edit, reach_main|].
  intros s H. vm_compute in H. intuition discriminate.
Defined.

(** X8. On every built page, every value of the OutputDocument is non-empty
    and carries no white space or line terminator at either end. *)
Theorem output_values_trimmed (p : Page) :
  built p ->
  Forall (fun kv => truthy (snd kv) = true /\ trim (snd kv) = snd kv)
         (buildOutput p).
Proof.
  intros B. apply Forall_forall. intros [k v] H.
  exact (project_values_filled p k v B H).
Qed.

Lemma output_values_trimmed_witness :
  Forall (fun kv => truthy (snd kv) = true /\ trim (snd kv) = snd kv)
         (buildOutput (typed "  A lone astronaut  ")).
Proof.
  refine (output_values_trimmed _ _). built_by_evaluation.
Defined.

(* ================================================================== *)
(** * The merge as an operation on the form *)

Lemma setControlValue_twice (c : Control) (s s' : jsstring) :
  setControlValue (setControlValue c s) s' = setControlValue c s'.
Proof. destruct c; reflexivity. Qed.

Lemma mergedControl_twice (entries : list (jsstring * JSValue))
  (kc : jsstring * Control) :
  mergedControl entries (mergedControl entries kc) = mergedControl entries kc.
Proof.
  unfold mergedControl. cbn [fst snd].
  destruct (Obj.getOwn entries (fst kc)) as [[| | |s| |]|]; try reflexivity.
  rewrite setControlValue_twice. reflexivity.
Qed.

Lemma mergedControl_keys (entries : list (jsstring * JSValue))
  (cs : list (jsstring * Control)) :
  Obj.keys (map (mergedControl entries) cs) = Obj.keys cs.
Proof. unfold Obj.keys. rewrite map_map. reflexivity. Qed.

(** X9. Merging is idempotent: on a built page with a clean
    [Object.prototype], merging a response (unique keys, no string under
    [__proto__]) a second time changes nothing and raises nothing. *)
Theorem merge_idempotent (p : Page) (entries : list (jsstring * JSValue)) :
  built p -> objectPrototypeValue p = None ->
  NoDup (Obj.keys entries) ->
  (forall s, ~ In (js "__proto__", JString s) entries) ->
  mergeEntries entries (fst (mergeEntries entries p))
  = mergeEntries entries p.
Proof.
  intros B OP NDe NP. pose proof (built_NoDup p B) as ND.
  rewrite (mergeEntries_exact entries p ND OP NDe NP). cbn [fst].
  rewrite mergeEntries_exact; try assumption.
  - cbn [configControls withConfigControls].
    rewrite withConfigControls_twice, map_map.
    do 2 f_equal. apply map_ext. apply mergedControl_twice.
  - cbn [configControls withConfigControls]. rewrite mergedControl_keys.
    exact ND.
Qed.

Lemma merge_idempotent_witness :
  mergeEntries exampleResponse
    (fst (mergeEntries exampleResponse (typed "a cat")))
  = mergeEntries exampleResponse (typed "a cat").
Proof.
  refine (merge_idempotent (typed "a cat") exampleResponse _ _ _ _).
  - built_by_evaluation.
  - reflexivity.
  - distinct_keys.
  - intros s H. vm_compute in H. intuition discriminate.
Defined.

Lemma getOwn_Permutation {A : Type} (es es' : list (jsstring * A))
  (k : jsstring) :
  NoDup (Obj.keys es) -> Permutation es es' ->
  Obj.getOwn es k = Obj.getOwn es' k.
Proof.
  intros ND P.
  assert (ND' : NoDup (Obj.keys es'))
    by (exact (Permutation_NoDup (Permutation_map fst P) ND)).
  destruct (Obj.getOwn es k) as [v|] eqn:G.
  - symmetry. apply getOwn_In; [exact ND'|].
    apply (Permutation_in _ P). apply getOwn_Some_In. exact G.
  - symmetry. apply getOwn_None. apply getOwn_None in G.
    intros H. apply G.
    exact (Permutation_in _ (Permutation_sym (Permutation_map fst P)) H).
Qed.

(** X10. The merge does not depend on the order of the members: on a built
    page with a clean [Object.prototype], two listings of the same members
    (unique keys, no string under [__proto__]) give the same page and no
    error. *)
Theorem merge_order_independent (p : Page)
  (entries entries' : list (jsstring * JSValue)) :
  built p -> objectPrototypeValue p = None ->
  NoDup (Obj.keys entries) ->
  (forall s, ~ In (js "__proto__", JString s) entries) ->
  Permutation entries entries' ->
  mergeEntries entries' p = mergeEntries entries p.
Proof.
  intros B OP NDe NP P. pose proof (built_NoDup p B) as ND.
  assert (NDe' : NoDup (Obj.keys entries'))
    by (exact (Permutation_NoDup (Permutation_map fst P) NDe)).
  assert (NP' : forall s, ~ In (js "__proto__", JString s) entries').
  { intros s H. apply (NP s).
    exact (Permutation_in _ (Permutation_sym P) H). }
  rewrite (mergeEntries_exact entries p ND OP NDe NP),
    (mergeEntries_exact entries' p ND OP NDe' NP').
  do 2 f_equal. apply map_ext. intros kc. unfold mergedControl.
  rewrite (getOwn_Permutation entries entries' (fst kc) NDe P). reflexivity.
Qed.

Lemma merge_order_independent_witness :
  mergeEntries (rev exampleResponse) (typed "a cat")
  = mergeEntries exampleResponse (typed "a cat").
Proof.
  refine (merge_order_independent (typed "a cat") exampleResponse
            (rev exampleResponse) _ _ _ _ _).
  - built_by_evaluation.
  - reflexivity.
  - distinct_keys.
  - intros s H. vm_compute in H. intuition discriminate.
  - apply Permutation_rev.
Defined.

(* ================================================================== *)
(** * Responses that are no mapping *)

Lemma digitsOfUint_digits (u : Decimal.uint) :
  Forall (fun c => isDigitUnit c = true) (digitsOfUint u).
Proof. induction u; simpl; constructor; (reflexivity || assumption). Qed.

Lemma numberToString_digits (n : N) :
  Forall (fun c => isDigitUnit c = true) (numberToString n).
Proof.
  destruct n; simpl; [repeat constructor | apply digitsOfUint_digits].
Qed.

Lemma digits_not_resolvable (key : jsstring) :
  Forall (fun c => isDigitUnit c = true) key -> ~ In key resolvableNames.
Proof.
  intros D H.
  assert (C : forallb
                (fun name =>
                   match name with
                   | c :: _ => negb (isDigitUnit c)
                   | [] => false
                   end) resolvableNames = true) by reflexivity.
  rewrite forallb_forall in C. specialize (C key H).
  destruct key as [|c r]; [discriminate|].
  inversion D as [|? ? Dc _]; subst. rewrite Dc in C. discriminate.
Qed.

Lemma lookupControl_unresolvable (p : Page) (key : jsstring) :
  built p -> ~ In key resolvableNames -> lookupControl p key = LUndefined.
Proof.
  intros B H. unfold resolvableNames in H. rewrite !in_app_iff in H.
  unfold lookupControl.
  assert (G : Obj.getOwn (configControls p) key = None).
  { apply getOwn_None. rewrite (built_keys p B). tauto. }
  rewrite G.
  destruct (JsString.eqb key (js "value")) eqn:E1.
  { apply eqb_eq in E1. exfalso. apply H. right. left. left. auto. }
  destruct (JsString.eqb key (js "__proto__")) eqn:E2.
  { apply eqb_eq in E2. exfalso. apply H. right. left. right. left. auto. }
  destruct (existsb (JsString.eqb key) objectPrototypeFunctions) eqn:E3.
  { apply existsb_eqb_In in E3. exfalso. apply H. right. right. exact E3. }
  reflexivity.
Qed.

Lemma mergeEntries_unresolvable (p : Page)
  (entries : list (jsstring * JSValue)) :
  (forall key, In key (Obj.keys entries) ->
               lookupControl p key = LUndefined) ->
  mergeEntries entries p = (p, None).
Proof.
  induction entries as [|[key value] rest IH]; intros H; [reflexivity|].
  assert (L : lookupControl p key = LUndefined)
    by (apply H; left; reflexivity).
  assert (R : mergeEntries rest p = (p, None))
    by (apply IH; intros k Hk; apply H; right; exact Hk).
  destruct value; cbn [mergeEntries]; try exact R.
  rewrite L. exact R.
Qed.

Lemma indexed_keys_digits {A : Type} (l : list A) (key : jsstring) :
  In key (Obj.keys (indexed l)) ->
  Forall (fun c => isDigitUnit c = true) key.
Proof.
  unfold Obj.keys, indexed. intros H. apply in_map_iff in H.
  destruct H as ([k a] & E & H). cbn [fst] in E. subst k.
  apply in_combine_l in H. apply in_map_iff in H.
  destruct H as (i & <- & _). apply numberToString_digits.
Qed.

(** X11. A response that parses to a boolean, a number, a string or an
    array is accepted in silence on every built page: nothing is written,
    nothing is logged or shown (the indices of a string or an array name no
    control). A response that parses to [null] takes the failure path, with
    nothing written. *)
Theorem non_mapping_response_is_ignored (p : Page) (v : JSValue) :
  built p -> notMapping v = true ->
  enhanceTry p (Responded (Some v)) = (p, [])
  /\ enhanceTry p (Responded (Some JNull)) = (p, caught TypeError).
Proof.
  intros B H. split; [|reflexivity].
  assert (D : forall A (l : list A),
             forall key, In key (Obj.keys (indexed l)) ->
                         lookupControl p key = LUndefined).
  { intros A l key Hk. apply lookupControl_unresolvable; [exact B|].
    apply digits_not_resolvable. exact (indexed_keys_digits l key Hk). }
  destruct v as [|b|x|s|l|ms]; try discriminate; cbn [enhanceTry Object_entries].
  - reflexivity.
  - reflexivity.
  - rewrite (mergeEntries_unresolvable p _ (D _ _)). reflexivity.
  - rewrite (mergeEntries_unresolvable p _ (D _ _)). reflexivity.
Qed.

Lemma non_mapping_response_is_ignored_witness :
  enhanceTry (typed "a cat")
    (Responded (Some (JArray [JString (js "Pan"); JNull; number 7])))
  = (typed "a cat", []).
Proof.
  refine (proj1 (non_mapping_response_is_ignored (typed "a cat")
                   (JArray [JString (js "Pan"); JNull; number 7]) _ eq_refl)).
  built_by_evaluation.
Defined.

(* ================================================================== *)
(** * What one click does to the outside *)

Lemma enhanceTry_effects (p : Page) (o : ServiceOutcome) :
  snd (enhanceTry p o) = [] \/ exists e, snd (enhanceTry p o) = caught e.
Proof.
  destruct o as [|[data|]]; simpl; eauto.
  destruct (Object_entries data) as [entries|]; simpl; eauto.
  destruct (mergeEntries entries p) as [q [e|]]; simpl; eauto.
Qed.

(** X12. One click on the enhance button sends at most one request and shows
    at most one notice, whatever the outcome: there is no retry. It sends a
    request exactly when both nodes exist and the trimmed prompt is not
    empty. *)
Theorem one_request_per_click (p : Page) (midflight : list UserEdit)
  (o : ServiceOutcome) :
  let effects := snd (handleEnhanceClick p midflight o) in
  List.length (filter isGenerateContent effects) <= 1
  /\ List.length (filter isAlert effects) <= 1
  /\ (List.length (filter isGenerateContent effects) = 1 <->
      (exists v, promptInput p = Some v /\ truthy (trim v) = true)
      /\ enhanceButton p <> None).
Proof.
  intros effects. subst effects. unfold handleEnhanceClick, enhanceBegin.
  destruct (promptInput p) as [v|] eqn:Hv.
  2:{ simpl. repeat split; try lia; try discriminate.
      intros [(x & Hx & _) _]. discriminate. }
  destruct (enhanceButton p) as [b|] eqn:Hb.
  2:{ simpl. repeat split; try lia; try discriminate.
      intros [_ H]. contradiction H; reflexivity. }
  cbv zeta. destruct (truthy (trim v)) eqn:T; cbn [negb].
  - rewrite (surjective_pairing (enhanceResume _ o)). cbn [snd].
    rewrite enhanceResume_snd.
    set (q := applyEdits midflight _).
    destruct (enhanceTry_effects q o) as [E | (e & E)]; rewrite E; simpl.
    + repeat split; try lia; try discriminate. exists v. auto.
    + repeat split; try lia; try discriminate. exists v. auto.
  - simpl. repeat split; try lia; try discriminate.
    intros [(x & Hx & Tx) _]. inversion Hx; subst. congruence.
Qed.

(* ================================================================== *)
(** * A failed enhancement, seen from the whole page *)

Lemma handleEnhanceClick_idle (p : Page) (midflight : list UserEdit)
  (o : ServiceOutcome) :
  enhanceButton p = Some {| disabled := false; textContent := IDLE_LABEL |} ->
  enhanceButton (fst (handleEnhanceClick p midflight o))
  = Some {| disabled := false; textContent := IDLE_LABEL |}.
Proof.
  intros Hb. unfold handleEnhanceClick, enhanceBegin. rewrite Hb.
  destruct (promptInput p) as [v|]; [|exact Hb].
  cbv zeta. destruct (negb (truthy (trim v))); [exact Hb|].
  rewrite (surjective_pairing (enhanceResume _ o)). cbn [fst].
  rewrite enhanceResume_fst. unfold enhanceFinally.
  cbn [enhanceButton withEnhanceButton].
  rewrite generate_enhanceButton, enhanceTry_enhanceButton,
    applyEdits_enhanceButton. reflexivity.
Qed.

Lemma reachable_idle (allowed : ServiceOutcome -> Prop) (p : Page) :
  reachableVia allowed p ->
  enhanceButton p = Some {| disabled := false; textContent := IDLE_LABEL |}.
Proof.
  intros R. induction R as [|p e R IH|p midflight o R IH A].
  - reflexivity.
  - rewrite applyEdit_enhanceButton. exact IH.
  - apply handleEnhanceClick_idle. exact IH.
Qed.

Lemma generate_synced_id (p : Page) :
  synced p -> generateAndDisplayJSON p = p.
Proof.
  unfold synced, generateAndDisplayJSON. intros S. rewrite S, <- S.
  destruct p; reflexivity.
Qed.

(** X13. On every page of a session, an enhancement that fails (the request
    is rejected, the text does not parse, or it parses to [null]) with no
    edit during the request gives back the page exactly as it was: form,
    button, displayed JSON and [Object.prototype]. *)
Theorem failed_enhancement_restores_page (p : Page) (o : ServiceOutcome) :
  reachable p -> failing o -> fst (handleEnhanceClick p [] o) = p.
Proof.
  intros R F. pose proof (reachable_idle _ p R) as Hb.
  pose proof (reachable_synced _ p R) as S.
  unfold handleEnhanceClick, enhanceBegin. rewrite Hb.
  destruct (promptInput p) as [v|] eqn:Hv; [|reflexivity].
  cbv zeta. destruct (negb (truthy (trim v))); [reflexivity|].
  rewrite (surjective_pairing (enhanceResume _ o)). cbn [fst applyEdits fold_left].
  rewrite enhanceResume_fst.
  assert (T : fst (enhanceTry
                     (withEnhanceButton p
                        (Some {| disabled := true;
                                 textContent := LOADING_LABEL |})) o)
              = withEnhanceButton p
                  (Some {| disabled := true; textContent := LOADING_LABEL |})).
  { destruct F as [-> | [-> | ->]]; reflexivity. }
  rewrite T. unfold enhanceFinally.
  rewrite generate_withEnhanceButton, (generate_synced_id p S).
  cbn [enhanceButton withEnhanceButton].
  destruct p as [pi eb jo cs opv]. cbn [enhanceButton] in Hb. subst eb.
  reflexivity.
Qed.

Lemma failed_enhancement_restores_page_witness :
  fst (handleEnhanceClick (typed "a cat") [] (Responded None))
  = typed "a cat".
Proof.
  refine (failed_enhancement_restores_page (typed "a cat") (Responded None)
            _ _).
  - apply reach_edit, reach_main.
  - right. left. reflexivity.
Defined.

(* ================================================================== *)
(** * [buildUI] *)

Lemma getOwn_set {A : Type} (o : list (jsstring * A)) (k k' : jsstring)
  (v : A) :
  Obj.getOwn (Obj.set o k v) k'
  = if JsString.eqb k k' then Some v else Obj.getOwn o k'.
Proof.
  induction o as [|[k0 v0] o IH]; simpl.
  - destruct (JsString.eqb k k'); reflexivity.
  - destruct (JsString.eqb k0 k) eqn:E; simpl.
    + apply eqb_eq in E; subst k0.
      destruct (JsString.eqb k k'); reflexivity.
    + destruct (JsString.eqb k0 k') eqn:E'; [|exact IH].
      apply eqb_eq in E'; subst k0. rewrite eqb_sym, E. reflexivity.
Qed.

Lemma createControls_other (fields : list (jsstring * FieldConfig))
  (k : jsstring) :
  forall acc,
    ~ In k (Obj.keys fields) ->
    Obj.getOwn
      (fold_left (fun cs kc => Obj.set cs (fst kc) (createControl (snd kc)))
                 fields acc) k
    = Obj.getOwn acc k.
Proof.
  induction fields as [|[k0 c0] fields IH]; intros acc H; [reflexivity|].
  simpl in *. rewrite IH by tauto. rewrite getOwn_set.
  destruct (JsString.eqb k0 k) eqn:E; [|reflexivity].
  apply eqb_eq in E. exfalso. tauto.
Qed.

Lemma createControls_each (fields : list (jsstring * FieldConfig))
  (k : jsstring) (config : FieldConfig) :
  forall acc,
    NoDup (Obj.keys fields) -> In (k, config) fields ->
    Obj.getOwn
      (fold_left (fun cs kc => Obj.set cs (fst kc) (createControl (snd kc)))
                 fields acc) k
    = Some (createControl config).
Proof.
  induction fields as [|[k0 c0] fields IH]; intros acc ND H; [contradiction|].
  inversion ND as [|? ? Hn ND']; subst. destruct H as [H|H].
  - inversion H; subst. cbn [fold_left fst snd].
    rewrite createControls_other by exact Hn.
    rewrite getOwn_set, eqb_refl. reflexivity.
  - cbn [fold_left]. apply IH; assumption.
Qed.

(** X14. [buildUI] leaves the page alone when the root node is missing.
    Otherwise, whatever the page held before, every registry attribute has a
    new control of its kind -- a select over the empty option followed by
    the registry options, or a text input -- with the empty value; the prompt
    is empty and the enhance button is enabled under its idle label. *)
Theorem buildUI_resets_the_form (p : Page) :
  buildUI false p = p
  /\ (forall k config,
        In (k, config) CONFIG_FIELDS ->
        Obj.getOwn (configControls (buildUI true p)) k
        = Some (createControl config)
        /\ formValue (buildUI true p) k = Some []
        /\ controlMatches config (createControl config))
  /\ promptInput (buildUI true p) = Some []
  /\ enhanceButton (buildUI true p)
     = Some {| disabled := false; textContent := IDLE_LABEL |}.
Proof.
  split; [reflexivity|]. split; [|split; reflexivity].
  intros k config H.
  assert (G : Obj.getOwn (configControls (buildUI true p)) k
              = Some (createControl config)).
  { cbn [buildUI negb configControls].
    apply createControls_each; [exact registryKeys_NoDup | exact H]. }
  split; [exact G|]. split.
  - unfold formValue. rewrite G. destruct config; reflexivity.
  - destruct config; simpl; auto.
Qed.

(* ================================================================== *)
(** * [generatePromptsBatch]: the prompts are pairwise distinct *)

Lemma digitsOfUint_injective (u u' : Decimal.uint) :
  digitsOfUint u = digitsOfUint u' -> u = u'.
Proof.
  revert u'. induction u; intros [] H; cbn in H; try discriminate;
    try reflexivity; inversion H; f_equal; auto.
Qed.

Lemma numberToString_as_digits (n : N) :
  numberToString n = digitsOfUint (N.to_uint n).
Proof. destruct n; reflexivity. Qed.

Lemma numberToString_injective (n m : N) :
  numberToString n = numberToString m -> n = m.
Proof.
  rewrite !numberToString_as_digits. intros H.
  apply DecimalN.Unsigned.to_uint_inj, digitsOfUint_injective, H.
Qed.

Lemma digits_before_space (d d' r r' : jsstring) :
  Forall (fun c => isDigitUnit c = true) d ->
  Forall (fun c => isDigitUnit c = true) d' ->
  d ++ 0x20%N :: r = d' ++ 0x20%N :: r' -> d = d'.
Proof.
  intros D. revert d'. induction D as [|c d Hc D IH]; intros d' D' E.
  - destruct D' as [|c' d' Hc' D']; [reflexivity|].
    cbn [app] in E. inversion E; subst. discriminate.
  - destruct D' as [|c' d' Hc' D'].
    + cbn [app] in E. inversion E; subst. discriminate.
    + cbn [app] in E. inversion E; subst. f_equal. eapply IH; eassumption.
Qed.

Lemma Forall2_In_right {A B : Type} (R : A -> B -> Prop) (l : list A)
  (l' : list B) (b : B) :
  Forall2 R l l' -> In b l' -> exists a, In a l /\ R a b.
Proof.
  intros F. induction F as [|x y l l' Rxy F IH]; intros H; [contradiction|].
  destruct H as [H|H].
  - subst y. exists x. split; [left; reflexivity | exact Rxy].
  - destruct (IH H) as (a & Hin & Ra). exists a.
    split; [right; exact Hin | exact Ra].
Qed.

Lemma Forall2_NoDup {A B : Type} (R : A -> B -> Prop) (l : list A)
  (l' : list B) :
  (forall a a' b, R a b -> R a' b -> a = a') ->
  Forall2 R l l' -> NoDup l -> NoDup l'.
Proof.
  intros Inj F. induction F as [|x y l l' Rxy F IH]; intros ND;
    [constructor|].
  inversion ND as [|? ? Hn ND']; subst. constructor; [|exact (IH ND')].
  intros H. destruct (Forall2_In_right R l l' y F H) as (a & Hin & Ra).
  rewrite (Inj x a y Rxy Ra) in Hn. contradiction.
Qed.

(** X15. Whenever the promise of the batch stub is fulfilled, the strings it
    brings are pairwise distinct, whatever [formState.keyword] converts to:
    no prompt is generated twice. *)
Theorem generatePromptsBatch_distinct (capacity : N)
  (formState : BatchFormState) (quantity : N) (prompts : list jsstring) :
  generatePromptsBatch capacity formState quantity = Fulfilled prompts ->
  NoDup prompts.
Proof.
  unfold generatePromptsBatch, Array_from_length.
  destruct (MAX_ARRAY_LENGTH <? quantity)%N; [discriminate|].
  destruct (capacity <? quantity)%N; [discriminate|].
  destruct (mapUntilThrow _ _) as [l|] eqn:E; [|discriminate].
  intros H. inversion H; subst l. apply mapUntilThrow_Some in E.
  refine (Forall2_NoDup _ _ _ _ E (seq_NoDup _ _)).
  intros i j x Hi Hj.
  apply prompt_element in Hi. destruct Hi as (t & _ & Ei).
  apply prompt_element in Hj. destruct Hj as (t' & _ & Ej).
  rewrite Ei in Ej. apply app_inv_head in Ej.
  change (js " for " ++ t) with (0x20%N :: js "for " ++ t) in Ej.
  change (js " for " ++ t') with (0x20%N :: js "for " ++ t') in Ej.
  apply digits_before_space in Ej; try apply numberToString_digits.
  apply numberToString_injective in Ej. lia.
Qed.

Lemma generatePromptsBatch_distinct_witness :
  generatePromptsBatch 134217727 (Holding (KString (js "cat"))) 12
  = Fulfilled
      (map (fun i => js "Generated prompt " ++ numberToString (N.of_nat i)
                     ++ js " for cat") (seq 1 12))
  /\ NoDup
       (map (fun i => js "Generated prompt " ++ numberToString (N.of_nat i)
                      ++ js " for cat") (seq 1 12)).
Proof.
  assert (H : generatePromptsBatch 134217727 (Holding (KString (js "cat"))) 12
              = Fulfilled
                  (map (fun i => js "Generated prompt "
                                 ++ numberToString (N.of_nat i)
                                 ++ js " for cat") (seq 1 12)))
    by reflexivity.
  split; [exact H|].
  exact (generatePromptsBatch_distinct 134217727
           (Holding (KString (js "cat"))) 12 _ H).
Defined.

(* ================================================================== *)
(** * The displayed text reads back as the projection *)

Import Reader.

Lemma hex4_unicodeEscape (c : N) :
  (c < 0x20 \/ 0xD800 <= c <= 0xDFFF)%N ->
  hex4 (hexDigit (N.land (N.shiftr c 12) 15))
       (hexDigit (N.land (N.shiftr c 8) 15))
       (hexDigit (N.land (N.shiftr c 4) 15))
       (hexDigit (N.land c 15))
  = Some c.
Proof.
  intros H.
  set (check := fun u : N =>
         match hex4 (hexDigit (N.land (N.shiftr u 12) 15))
                    (hexDigit (N.land (N.shiftr u 8) 15))
                    (hexDigit (N.land (N.shiftr u 4) 15))
                    (hexDigit (N.land u 15)) with
         | Some u' => N.eqb u' u
         | None => false
         end).
  assert (C : forallb check
                (map N.of_nat (seq 0 32)
                 ++ map (fun i => (0xD800 + N.of_nat i)%N) (seq 0 2048))
              = true) by (vm_compute; reflexivity).
  rewrite forallb_forall in C.
  assert (I : In c (map N.of_nat (seq 0 32)
                    ++ map (fun i => (0xD800 + N.of_nat i)%N) (seq 0 2048))).
  { apply in_app_iff. destruct H as [H|H].
    - left. apply in_map_iff. exists (N.to_nat c). split; [lia|].
      apply in_seq. lia.
    - right. apply in_map_iff. exists (N.to_nat (c - 0xD800)).
      split; [lia|]. apply in_seq. lia. }
  specialize (C c I). unfold check in C.
  destruct (hex4 _ _ _ _) as [u|]; [|discriminate].
  apply N.eqb_eq in C. subst. reflexivity.
Qed.

Lemma readString_raw (c : N) (t : jsstring) :
  (0x20 <= c)%N -> c <> 0x22%N -> c <> 0x5C%N ->
  readString (c :: t) = prepend c (readString t).
Proof.
  intros H1 H2 H3. cbn [readString].
  apply N.eqb_neq in H2, H3. rewrite H2, H3.
  assert (L : (c <? 0x20)%N = false) by (apply N.ltb_ge; exact H1).
  rewrite L. reflexivity.
Qed.

Lemma readString_unicodeEscape (c : N) (t : jsstring) :
  (c < 0x20 \/ 0xD800 <= c <= 0xDFFF)%N ->
  readString (unicodeEscape c ++ t) = prepend c (readString t).
Proof.
  intros H. unfold unicodeEscape. cbn [app readString].
  change (N.eqb 0x5C 0x22) with false. change (N.eqb 0x5C 0x5C) with true.
  change (N.eqb 0x75 0x75) with true. cbv iota.
  rewrite (hex4_unicodeEscape c H). reflexivity.
Qed.

(** One escaped code unit reads back as that code unit. *)
Lemma readString_quoteUnit (c : N) (t : jsstring) :
  readString (quoteUnit c ++ t) = prepend c (readString t).
Proof.
  unfold quoteUnit.
  destruct (N.eqb c 0x08) eqn:E1; [apply N.eqb_eq in E1; subst; reflexivity|].
  destruct (N.eqb c 0x09) eqn:E2; [apply N.eqb_eq in E2; subst; reflexivity|].
  destruct (N.eqb c 0x0A) eqn:E3; [apply N.eqb_eq in E3; subst; reflexivity|].
  destruct (N.eqb c 0x0C) eqn:E4; [apply N.eqb_eq in E4; subst; reflexivity|].
  destruct (N.eqb c 0x0D) eqn:E5; [apply N.eqb_eq in E5; subst; reflexivity|].
  destruct (N.eqb c 0x22) eqn:E6; [apply N.eqb_eq in E6; subst; reflexivity|].
  destruct (N.eqb c 0x5C) eqn:E7; [apply N.eqb_eq in E7; subst; reflexivity|].
  destruct (N.ltb c 0x20) eqn:E8.
  { apply readString_unicodeEscape. left. apply N.ltb_lt. exact E8. }
  destruct (isLeadingSurrogate c || isTrailingSurrogate c) eqn:E9.
  { apply readString_unicodeEscape. right.
    unfold isLeadingSurrogate, isTrailingSurrogate in E9.
    apply orb_true_iff in E9.
    destruct E9 as [E9|E9]; apply andb_true_iff in E9; destruct E9 as [A B];
      apply N.leb_le in A, B; lia. }
  apply readString_raw.
  - apply N.ltb_ge. exact E8.
  - apply N.eqb_neq. exact E6.
  - apply N.eqb_neq. exact E7.
Qed.

Lemma list_pair_ind {A : Type} (P : list A -> Prop) :
  P [] -> (forall c, P [c]) ->
  (forall c d r, P r -> P (d :: r) -> P (c :: d :: r)) ->
  forall l, P l.
Proof.
  intros H0 H1 H2 l.
  assert (G : P l /\ forall c, P (c :: l)).
  { induction l as [|d r [IH1 IH2]]; split; auto. }
  exact (proj1 G).
Qed.

Lemma prepend_Some (c : N) (s t : jsstring) :
  prepend c (Some (s, t)) = Some (c :: s, t).
Proof. reflexivity. Qed.

(** Round trip of a string: what [QuoteJSONString] writes, the reader reads
    back, up to the closing quote and not beyond. *)
Lemma readString_quoteBody (s : jsstring) :
  forall t, readString (quoteBody s ++ 0x22%N :: t) = Some (s, t).
Proof.
  induction s as [| c | c d r IHr IHdr] using list_pair_ind; intros t.
  - reflexivity.
  - cbn [quoteBody]. rewrite readString_quoteUnit.
    change (readString (0x22%N :: t)) with (Some (@nil N, t)). reflexivity.
  - cbn [quoteBody].
    destruct (isLeadingSurrogate c && isTrailingSurrogate d) eqn:E.
    + apply andb_true_iff in E. destruct E as [Ec Ed].
      unfold isLeadingSurrogate in Ec. unfold isTrailingSurrogate in Ed.
      apply andb_true_iff in Ec, Ed. destruct Ec as [C1 C2], Ed as [D1 D2].
      apply N.leb_le in C1, C2, D1, D2.
      cbn [app]. rewrite readString_raw by lia.
      rewrite readString_raw by lia. rewrite IHr. reflexivity.
    + rewrite <- app_assoc, readString_quoteUnit, IHdr. reflexivity.
Qed.

(** The text of one member, as [JSON_stringify] writes it. *)
Lemma member_text (k v : jsstring) (t : jsstring) :
  (quoteJSONString k ++ js ": " ++ quoteJSONString v) ++ t
  = 0x22%N :: quoteBody k
    ++ 0x22%N :: 0x3A%N :: 0x20%N :: 0x22%N :: quoteBody v ++ 0x22%N :: t.
Proof.
  unfold quoteJSONString. change (js ": ") with [0x3A%N; 0x20%N].
  repeat (rewrite <- app_assoc; cbn [app]). reflexivity.
Qed.

Lemma readMember_member (k v : jsstring) (t : jsstring) :
  readMember ((quoteJSONString k ++ js ": " ++ quoteJSONString v) ++ t)
  = Some ((k, v), t).
Proof.
  rewrite member_text. cbn [readMember].
  rewrite readString_quoteBody.
  change (skipWS (0x3A%N :: 0x20%N :: 0x22%N :: quoteBody v ++ 0x22%N :: t))
    with (0x3A%N :: 0x20%N :: 0x22%N :: quoteBody v ++ 0x22%N :: t).
  cbv iota.
  change (skipWS (0x20%N :: 0x22%N :: quoteBody v ++ 0x22%N :: t))
    with (0x22%N :: quoteBody v ++ 0x22%N :: t).
  cbv iota. rewrite readString_quoteBody. reflexivity.
Qed.

Lemma skipWS_member (k v : jsstring) (t : jsstring) :
  skipWS ((quoteJSONString k ++ js ": " ++ quoteJSONString v) ++ t)
  = (quoteJSONString k ++ js ": " ++ quoteJSONString v) ++ t.
Proof. rewrite member_text. reflexivity. Qed.

Lemma skipWS_idempotent (s : jsstring) : skipWS (skipWS s) = skipWS s.
Proof.
  induction s as [|c r IH]; [reflexivity|].
  cbn [skipWS]. destruct (isWS c) eqn:E; [exact IH|].
  cbn [skipWS]. rewrite E. reflexivity.
Qed.

Lemma readMembers_skipWS (fuel : nat) (s : jsstring) :
  readMembers fuel (skipWS s) = readMembers fuel s.
Proof.
  destruct fuel; [reflexivity|]. cbn [readMembers].
  rewrite skipWS_idempotent. reflexivity.
Qed.

Lemma readMembers_join (doc : list (jsstring * jsstring)) :
  forall (m : jsstring * jsstring) (fuel : nat) (t : jsstring),
    List.length (m :: doc) <= fuel ->
    readMembers fuel
      (join ([0x2C%N; 0xA%N] ++ js "  ")
         (map (fun kv =>
                 quoteJSONString (fst kv) ++ js ": "
                 ++ quoteJSONString (snd kv)) (m :: doc))
       ++ 0xA%N :: 0x7D%N :: t)
    = Some (m :: doc, t).
Proof.
  induction doc as [|m' doc IH]; intros [k v] fuel t Hf;
    (destruct fuel as [|fuel]; [cbn in Hf; lia|]).
  - cbn [map join fst snd readMembers].
    rewrite skipWS_member, readMember_member. reflexivity.
  - change (join ([0x2C%N; 0xA%N] ++ js "  ")
              (map (fun kv =>
                      quoteJSONString (fst kv) ++ js ": "
                      ++ quoteJSONString (snd kv)) ((k, v) :: m' :: doc)))
      with ((quoteJSONString k ++ js ": " ++ quoteJSONString v)
            ++ ([0x2C%N; 0xA%N] ++ js "  ")
            ++ join ([0x2C%N; 0xA%N] ++ js "  ")
                 (map (fun kv =>
                         quoteJSONString (fst kv) ++ js ": "
                         ++ quoteJSONString (snd kv)) (m' :: doc))).
    rewrite <- app_assoc. cbn [readMembers].
    rewrite skipWS_member, readMember_member.
    rewrite <- app_assoc.
    set (J := join _ _ ++ 0xA%N :: 0x7D%N :: t).
    change (skipWS (([0x2C%N; 0xA%N] ++ js "  ") ++ J))
      with (0x2C%N :: 0xA%N :: 0x20%N :: 0x20%N :: J).
    cbv iota.
    rewrite <- (readMembers_skipWS fuel (0xA%N :: 0x20%N :: 0x20%N :: J)).
    change (skipWS (0xA%N :: 0x20%N :: 0x20%N :: J)) with (skipWS J).
    rewrite readMembers_skipWS. subst J.
    rewrite IH by (cbn [List.length] in *; lia). reflexivity.
Qed.

Lemma join_length (sep : jsstring) (items : list jsstring) :
  Forall (fun x => 1 <= List.length x) items ->
  List.length items <= List.length (join sep items).
Proof.
  intros F. induction F as [|x r Hx F IH]; [apply le_n|].
  destruct r as [|y r].
  - cbn [join List.length]. lia.
  - change (join sep (x :: y :: r)) with (x ++ sep ++ join sep (y :: r)).
    rewrite !length_app. cbn [List.length] in *. lia.
Qed.

(** Round trip of a document: the text [JSON_stringify] writes reads back as
    the object it was written from, member by member and in order. *)
Lemma readDocument_stringify (doc : list (jsstring * jsstring)) :
  readDocument (JSON_stringify doc) = Some doc.
Proof.
  destruct doc as [|m doc]; [reflexivity|].
  unfold readDocument.
  set (members := join ([0x2C%N; 0xA%N] ++ js "  ")
                    (map (fun kv =>
                            quoteJSONString (fst kv) ++ js ": "
                            ++ quoteJSONString (snd kv)) (m :: doc))).
  assert (L : List.length (m :: doc)
              <= List.length (JSON_stringify (m :: doc))).
  { unfold JSON_stringify. fold members. rewrite !length_app.
    assert (List.length (m :: doc) <= List.length members).
    { unfold members. rewrite <- (length_map
        (fun kv => quoteJSONString (fst kv) ++ js ": "
                   ++ quoteJSONString (snd kv)) (m :: doc)).
      apply join_length. apply Forall_forall. intros x Hx.
      apply in_map_iff in Hx. destruct Hx as (kv & <- & _).
      unfold quoteJSONString. rewrite !length_app. cbn [List.length]. lia. }
    lia. }
  revert L. generalize (List.length (JSON_stringify (m :: doc))) as fuel.
  intros fuel L.
  assert (T : JSON_stringify (m :: doc)
              = 0x7B%N :: 0xA%N :: 0x20%N :: 0x20%N
                :: members ++ 0xA%N :: 0x7D%N :: []).
  { unfold JSON_stringify. fold members. reflexivity. }
  rewrite T.
  change (skipWS (0x7B%N :: 0xA%N :: 0x20%N :: 0x20%N
                  :: members ++ [0xA%N; 0x7D%N]))
    with (0x7B%N :: 0xA%N :: 0x20%N :: 0x20%N :: members ++ [0xA%N; 0x7D%N]).
  cbv iota.
  change (skipWS (0xA%N :: 0x20%N :: 0x20%N :: members ++ [0xA%N; 0x7D%N]))
    with (skipWS (members ++ [0xA%N; 0x7D%N])).
  assert (S : skipWS (members ++ [0xA%N; 0x7D%N])
              = 0x22%N :: tl (members ++ [0xA%N; 0x7D%N])
              /\ members ++ [0xA%N; 0x7D%N]
                 = 0x22%N :: tl (members ++ [0xA%N; 0x7D%N])).
  { destruct m as [k v]. unfold members. destruct doc as [|m' doc].
    - cbn [map join fst snd]. rewrite member_text. split; reflexivity.
    - change (join ([0x2C%N; 0xA%N] ++ js "  ")
                (map (fun kv =>
                        quoteJSONString (fst kv) ++ js ": "
                        ++ quoteJSONString (snd kv)) ((k, v) :: m' :: doc)))
        with ((quoteJSONString k ++ js ": " ++ quoteJSONString v)
              ++ ([0x2C%N; 0xA%N] ++ js "  ")
              ++ join ([0x2C%N; 0xA%N] ++ js "  ")
                   (map (fun kv =>
                           quoteJSONString (fst kv) ++ js ": "
                           ++ quoteJSONString (snd kv)) (m' :: doc))).
      rewrite <- app_assoc, member_text. split; reflexivity. }
  destruct S as [S1 S2]. rewrite S1. cbv iota. rewrite <- S2.
  unfold members. rewrite (readMembers_join doc m fuel [] L). reflexivity.
Qed.

(** X16. On every page of a session the text in the JSON region is a JSON
    object that reads back, by the JSON grammar for strings and objects, as
    exactly the OutputDocument: the same keys and values in the same order,
    whatever characters the values hold (quotes, backslashes, control
    characters, lone surrogates). *)
Theorem display_reads_back (p : Page) :
  reachable p ->
  exists text,
    jsonOutput p = Some text /\ readDocument text = Some (buildOutput p).
Proof.
  intros R. exists (JSON_stringify (buildOutput p)).
  split; [exact (reachable_synced _ p R) | apply readDocument_stringify].
Qed.

Lemma display_reads_back_witness :
  exists text,
    jsonOutput (applyEdit (main true) (EditPrompt trickyPrompt)) = Some text
    /\ readDocument text
       = Some (buildOutput (applyEdit (main true) (EditPrompt trickyPrompt))).
Proof.
  exact (display_reads_back _ (reach_edit _ _ _ (reach_main _))).
Defined.

(** X17. The displayed text determines the OutputDocument: two pages of a
    session that show the same text project to the same document. *)
Theorem display_determines_projection (p q : Page) :
  reachable p -> reachable q -> jsonOutput p = jsonOutput q ->
  buildOutput p = buildOutput q.
Proof.
  intros Rp Rq E.
  rewrite (reachable_synced _ p Rp), (reachable_synced _ q Rq) in E.
  inversion E as [E'].
  pose proof (readDocument_stringify (buildOutput p)) as Hp.
  rewrite E', readDocument_stringify in Hp. inversion Hp. reflexivity.
Qed.

Lemma display_determines_projection_witness :
  buildOutput (typed "a cat") = buildOutput (typed " a cat ").
Proof.
  refine (display_determines_projection _ _ _ _ _).
  - apply reach_edit, reach_main.
  - apply reach_edit, reach_main.
  - reflexivity.
Defined.

(* ================================================================== *)
(** * When the prototype has been reached *)

(** X18. Nothing cleans up after a response that defined
    [Object.prototype.value]: once it is defined, it is still defined after
    every user edit and after every click on the enhance button, whatever the
    outcome. *)
Theorem prototype_value_stays_defined (p : Page) :
  objectPrototypeValue p <> None ->
  (forall e, objectPrototypeValue (applyEdit p e) <> None)
  /\ (forall midflight o,
        objectPrototypeValue (fst (handleEnhanceClick p midflight o))
        <> None).
Proof.
  intros H. split.
  - intros e. rewrite applyEdit_objectPrototypeValue. exact H.
  - intros midflight o.
    apply (handleEnhanceClick_keeps (fun q => objectPrototypeValue q <> None));
      try (intros; assumption); try exact H.
    intros q s _. discriminate.
Qed.

Lemma prototype_value_stays_defined_witness :
  objectPrototypeValue
    (fst (handleEnhanceClick afterProtoResponse [] Rejected)) <> None.
Proof.
  refine (proj2 (prototype_value_stays_defined afterProtoResponse _) [] Rejected).
  vm_compute. discriminate.
Defined.

(** Merging a list of members in two parts: the second part is merged into
    what the first part left, unless the first part ended in an error. *)
Lemma mergeEntries_app (a b : list (jsstring * JSValue)) :
  forall p,
    mergeEntries (a ++ b) p
    = match mergeEntries a p with
      | (q, None) => mergeEntries b q
      | (q, Some e) => (q, Some e)
      end.
Proof.
  induction a as [|[key value] a IH]; intros p; [reflexivity|].
  cbn [app mergeEntries].
  destruct value; try apply IH.
  destruct (looksTruthy (lookupControl p key)); [|apply IH].
  destruct (assignValue p key (lookupControl p key) s); [apply IH | reflexivity].
Qed.

(** X19. The merge is not all or nothing. On a built page, when the members
    merged so far have raised nothing and have left a non-empty string in
    [Object.prototype.value], a member named [value] that carries a string
    ends the merge with a TypeError: the members before it stay merged, the
    members after it are never looked at. *)
Theorem merge_aborts_at_value (p : Page)
  (before after : list (jsstring * JSValue)) (v s : jsstring) :
  built p ->
  snd (mergeEntries before p) = None ->
  objectPrototypeValue (fst (mergeEntries before p)) = Some s ->
  truthy s = true ->
  mergeEntries (before ++ (js "value", JString v) :: after) p
  = (fst (mergeEntries before p), Some TypeError).
Proof.
  intros B E OP T. rewrite mergeEntries_app.
  pose proof (mergeEntries_built before p B) as Bq.
  destruct (mergeEntries before p) as [q err]. cbn [fst snd] in *. subst err.
  cbn [mergeEntries]. unfold lookupControl.
  assert (G : Obj.getOwn (configControls q) (js "value") = None).
  { apply getOwn_None. rewrite (built_keys q Bq). exact value_not_registry. }
  rewrite G, eqb_refl, OP. cbn [looksTruthy]. rewrite T. reflexivity.
Qed.

Lemma merge_aborts_at_value_witness :
  mergeEntries
    ([(js "__proto__", JString (js "x"));
      (js "cameraMovement", JString (js "Pan"))]
     ++ (js "value", JString (js "y")) :: [(js "mood", JString (js "Epic"))])
    (typed "a")
  = (fst (mergeEntries
            [(js "__proto__", JString (js "x"));
             (js "cameraMovement", JString (js "Pan"))] (typed "a")),
     Some TypeError).
Proof.
  refine (merge_aborts_at_value (typed "a") _ _ (js "y") (js "x") _ _ _ _).
  - built_by_evaluation.
  - reflexivity.
  - reflexivity.
  - reflexivity.
Defined.

(* ================================================================== *)
(** * A successful enhancement, end to end *)

(** X20. A click with a non-empty prompt on a page of a session whose
    [Object.prototype] is clean, no edit during the request, and a response
    that is an object with unique keys and no string under [__proto__]: the
    only effect is the one request; every control that has a string in the
    response has been assigned it and the others are as before; the prompt is
    untouched; the JSON region shows the projection of the new form and the
    button is idle again. *)
Theorem successful_enhancement (p : Page) (v : jsstring)
  (members : list (jsstring * JSValue)) :
  reachable p -> objectPrototypeValue p = None ->
  promptInput p = Some v -> truthy (trim v) = true ->
  NoDup (Obj.keys members) ->
  (forall s, ~ In (js "__proto__", JString s) members) ->
  let r := handleEnhanceClick p [] (Responded (Some (JObject members))) in
  snd r = [requestFor (trim v)]
  /\ promptInput (fst r) = Some v
  /\ configControls (fst r) = map (mergedControl members) (configControls p)
  /\ jsonOutput (fst r) = Some (JSON_stringify (buildOutput (fst r)))
  /\ enhanceButton (fst r)
     = Some {| disabled := false; textContent := IDLE_LABEL |}
  /\ objectPrototypeValue (fst r) = None.
Proof.
  intros R OP Hv Ht NDe NP r. subst r.
  pose proof (reachable_built _ p R) as B.
  pose proof (reachable_idle _ p R) as Hb.
  assert (Hb' : enhanceButton p <> None) by (rewrite Hb; discriminate).
  rewrite (handleEnhanceClick_awaits p v [] _ Hv Ht Hb'). cbv zeta.
  cbn [applyEdits fold_left enhanceTry Object_entries].
  set (w := withEnhanceButton p _).
  assert (M : mergeEntries members w
              = (withConfigControls w
                   (map (mergedControl members) (configControls p)), None)).
  { apply (mergeEntries_exact members w); try assumption.
    exact (built_NoDup p B). }
  rewrite M. cbn [fst snd].
  set (t := withConfigControls w _).
  assert (J : jsonOutput t <> None) by (destruct B as (_ & _ & J & _); exact J).
  split; [reflexivity|]. split; [|split; [|split; [|split]]].
  - unfold enhanceFinally. cbn [promptInput withEnhanceButton].
    rewrite generate_promptInput. exact Hv.
  - unfold enhanceFinally. cbn [configControls withEnhanceButton].
    rewrite generate_configControls. reflexivity.
  - exact (enhanceFinally_synced t J).
  - unfold enhanceFinally. cbn [enhanceButton withEnhanceButton].
    rewrite generate_enhanceButton. reflexivity.
  - unfold enhanceFinally. cbn [objectPrototypeValue withEnhanceButton].
    rewrite generate_objectPrototypeValue. exact OP.
Qed.

Lemma successful_enhancement_witness :
  snd (handleEnhanceClick (typed "a cat") []
         (Responded (Some (JObject exampleResponse))))
  = [requestFor (trim (js "a cat"))].
Proof.
  refine (proj1 (successful_enhancement (typed "a cat") (js "a cat")
                   exampleResponse _ _ _ _ _ _)).
  - apply reach_edit, reach_main.
  - reflexivity.
  - reflexivity.
  - reflexivity.
  - distinct_keys.
  - intros s H. vm_compute in H. intuition discriminate.
Defined.

(** X21. Merging composes: merging the members of a response in two
    consecutive parts is merging the first part and then, if that raised
    nothing, merging the second part into the page it left; if the first part
    raised an error, the merge ends there with the page it had reached. *)
Theorem merge_in_two_parts (p : Page) (a b : list (jsstring * JSValue)) :
  mergeEntries (a ++ b) p
  = match mergeEntries a p with
    | (q, None) => mergeEntries b q
    | (q, Some e) => (q, Some e)
    end.
Proof. exact (mergeEntries_app a b p). Qed.
